(** * monorepo-versioning: version resolution and changelog engine

    A shallow embedding of [pkg/action.go].  Go strings are byte strings
    ([string] of the Standard Library), [int64] values are [Z], a
    [time.Time] is the number of nanoseconds since the Unix epoch, a
    panic is the [Panic] outcome, and the calls made to the GitHub API
    are recorded in a trace of events.  The third-party packages the
    action is linked against (semver, go-conventionalcommits, the
    case mappings of [strings] and [x/text], [sort.Slice]) are interfaces:
    the embedding quantifies over them and states the few facts of their
    documentation it relies on as separate law classes. *)

From Stdlib Require Import String Ascii List ZArith NArith Bool Lia Permutation Sorted.
From Stdlib Require Import DecimalString.
Import ListNotations.
Open Scope list_scope.
Open Scope string_scope.

(** ** Go strings (byte level) *)

Module GoStrings.

(** [s[n:]] for [n <= len(s)]. *)
Fixpoint drop (n : nat) (s : string) : string :=
  match n, s with
  | O, _ => s
  | S n', String _ s' => drop n' s'
  | S _, EmptyString => EmptyString
  end.

(** [strings.HasPrefix(s, prefix)]. *)
Definition HasPrefix (s prefix : string) : bool := String.prefix prefix s.

(** [strings.TrimPrefix(s, prefix)]: [s] without the leading [prefix],
    [s] itself when it does not start with [prefix]. *)
Definition TrimPrefix (s prefix : string) : string :=
  if HasPrefix s prefix then drop (String.length prefix) s else s.

(** [s[:n]]: a slice expression out of range panics, here [None]. *)
Definition sliceTo (s : string) (n : nat) : option string :=
  if (n <=? String.length s)%nat then Some (substring 0 n s) else None.

(** [strings.Replace(s, old, new, 1)]: the first occurrence only. *)
Fixpoint Replace1 (s old new : string) : string :=
  if HasPrefix s old then new ++ drop (String.length old) s
  else match s with
       | EmptyString => EmptyString
       | String c s' => String c (Replace1 s' old new)
       end.

Definition nl : string := String (ascii_of_nat 10) EmptyString.

(** The ASCII loop of [strings.EqualFold]: bytes are equal, or they are
    the upper and lower case of one letter; both strings must end
    together. *)
Fixpoint asciiEqualFold (s t : string) : bool :=
  match s, t with
  | EmptyString, EmptyString => true
  | String a s', String b t' =>
      let sr := N.min (N_of_ascii a) (N_of_ascii b) in
      let tr := N.max (N_of_ascii a) (N_of_ascii b) in
      if (tr =? sr)%N then asciiEqualFold s' t'
      else if ((65 <=? sr) && (sr <=? 90) && (tr =? sr + 32))%N
           then asciiEqualFold s' t'
           else false
  | _, _ => false
  end.

(** Every byte is below [utf8.RuneSelf]. *)
Fixpoint isASCII (s : string) : bool :=
  match s with
  | EmptyString => true
  | String a s' => (N_of_ascii a <? 128)%N && isASCII s'
  end.

(** ASCII lower-casing, byte by byte. *)
Definition asciiLower (a : ascii) : ascii :=
  let n := N_of_ascii a in
  if ((65 <=? n) && (n <=? 90))%N then ascii_of_N (n + 32) else a.

Fixpoint asciiToLower (s : string) : string :=
  match s with
  | EmptyString => EmptyString
  | String a s' => String (asciiLower a) (asciiToLower s')
  end.

End GoStrings.
Import GoStrings.

(** ** Outcomes: a value or a panic *)

Inductive PanicReason : Type :=
| SliceOutOfRange          (* s[:7] on a string shorter than 7 bytes *)
| ErrInvalidSemVer         (* semver.MustParse on a malformed string *)
| ErrInvalidPrerelease     (* error of Version.SetPrerelease *)
| ApiError.                (* error returned by a GitHub API call *)

Inductive outcome (A : Type) : Type :=
| Ok (a : A)
| Panic (why : PanicReason).
Arguments Ok {A} a.
Arguments Panic {A} why.

Definition obind {A B} (m : outcome A) (k : A -> outcome B) : outcome B :=
  match m with
  | Ok a => k a
  | Panic why => Panic why
  end.

Definition orPanic {A} (why : PanicReason) (o : option A) : outcome A :=
  match o with
  | Some a => Ok a
  | None => Panic why
  end.

Declare Scope outcome_scope.
Delimit Scope outcome_scope with outcome.
Notation "x <- m ;; k" := (obind m (fun x => k))
  (at level 61, m at next level, right associativity) : outcome_scope.

(** ** Time *)

(** A [time.Time] as nanoseconds since the Unix epoch; a
    [time.Duration] is a number of nanoseconds. *)
Definition Time := Z.
Definition Duration := Z.
Definition Millisecond : Duration := 1000000%Z.
Definition Second : Duration := 1000000000%Z.
(** [time.Date(1970, time.January, 1, 0, 0, 0, 0, time.UTC)]. *)
Definition startOfEpoch : Time := 0%Z.
Definition Add (t : Time) (d : Duration) : Time := (t + d)%Z.
(** [t.Unix()]: whole seconds since the epoch. *)
Definition Unix (t : Time) : Z := (t / Second)%Z.

(** ** The data of go-github the action reads and writes

    Pointer fields are represented by what their [Get...] accessor
    returns (the zero value when unset).  The two dates the code
    dereferences directly, the publish date of a listed release and the
    committer date of a fetched commit, are taken to be set: the sort of
    [filterAndSortReleasesForComponent] and the two date look-ups are
    modelled for data that has them. *)

Module github.

Record RepositoryRelease : Type := {
  TagName : string;
  Name : string;
  TargetCommitish : string;
  GenerateReleaseNotes : bool;
  Body : string;
  Prerelease : bool;
  PublishedAt : Time
}.

(** A [RepositoryCommit]: [GetSHA()], [GetHTMLURL()],
    [GetCommit().GetMessage()] and [GetAuthor().GetLogin()]. *)
Record RepositoryCommit : Type := {
  SHA : string;
  HTMLURL : string;
  Message : string;
  Login : string
}.

End github.

(** ** Interfaces of the linked packages *)

(** [strings.ToLower], [strings.EqualFold],
    [cases.Title(language.English).String] and [sort.Slice] on a slice
    of releases (its [less] closure given on elements). *)
Class GoText : Type := {
  ToLower : string -> string;
  EqualFold : string -> string -> bool;
  Title : string -> string;
  SortSlice : (github.RepositoryRelease -> github.RepositoryRelease -> bool) ->
              list github.RepositoryRelease -> list github.RepositoryRelease
}.

(** github.com/Masterminds/semver. [zeroVersion] is [semver.Version{}],
    [Version_eqb] is Go's [==] on the struct, [NewVersion] returns [None]
    for its error (and [MustParse] then panics). *)
Class Semver : Type := {
  Version : Type;
  zeroVersion : Version;
  Version_eqb : Version -> Version -> bool;
  NewVersion : string -> option Version;
  IncMajor : Version -> Version;
  IncMinor : Version -> Version;
  IncPatch : Version -> Version;
  SetPrerelease : Version -> string -> option Version;
  VersionPrerelease : Version -> string;
  VersionString : Version -> string
}.

(** github.com/leodido/go-conventionalcommits: [Parse] is the machine's
    [Parse] followed by the type assertion to [*ConventionalCommit];
    [None] is a parse error or a failed assertion. *)
Class ConventionalCommits : Type := {
  ConventionalCommit : Type;
  Parse : string -> option ConventionalCommit;
  Scope : ConventionalCommit -> option string;
  Description : ConventionalCommit -> string;
  IsBreakingChange : ConventionalCommit -> bool;
  IsFeat : ConventionalCommit -> bool;
  IsFix : ConventionalCommit -> bool
}.

(** ** The action *)

Record VersioningAction : Type := {
  owner : string;
  repository : string;
  component : string;
  label : string;
  branch : string;
  revision : string;
  initialVersion : string;
  defaultBranch : string
}.

Section Action.
Context {text : GoText} {sv : Semver} {cc : ConventionalCommits}.

Local Open Scope outcome_scope.

(** [semver.MustParse]. *)
Definition MustParse (s : string) : outcome Version :=
  orPanic ErrInvalidSemVer (NewVersion s).

Definition getComponentPrefix (component : string) : string :=
  ToLower component ++ "-".

Definition prefixWithComponent (component str : string) : string :=
  getComponentPrefix component ++ str.

Definition filterAndSortReleasesForComponent (component : string)
    (releases : list github.RepositoryRelease) : list github.RepositoryRelease :=
  let matchingReleases :=
    filter (fun release =>
              HasPrefix (ToLower (github.TagName release)) (getComponentPrefix component))
           releases in
  SortSlice (fun ri rj =>
               (Unix (github.PublishedAt rj) <? Unix (github.PublishedAt ri))%Z)
            matchingReleases.

Definition existingVersionOrNew (component : string)
    (existingReleases : list github.RepositoryRelease) (initialVersion : string)
    : outcome (Version * bool) :=
  match existingReleases with
  | [] =>
      v <- MustParse initialVersion ;; Ok (v, true)
  | latestRelease :: _ =>
      let latestReleaseVersion :=
        TrimPrefix (github.TagName latestRelease) (getComponentPrefix component) in
      v <- MustParse latestReleaseVersion ;; Ok (v, false)
  end.

(** The loop of [convertAndFilterCommitsForComponent]; each [continue]
    is a branch that keeps the accumulated slice as it is. *)
Fixpoint convertAndFilterCommitsForComponent (component : string)
    (commits : list github.RepositoryCommit) : list ConventionalCommit :=
  match commits with
  | [] => []
  | commit :: rest =>
      match Parse (github.Message commit) with
      | None => convertAndFilterCommitsForComponent component rest
      | Some conventionalCommit =>
          match Scope conventionalCommit with
          | None => convertAndFilterCommitsForComponent component rest
          | Some scope =>
              if EqualFold scope component
              then conventionalCommit :: convertAndFilterCommitsForComponent component rest
              else convertAndFilterCommitsForComponent component rest
          end
      end
  end.

(** The three flags of the scan in [newVersion]. *)
Record bumpFlags : Type := {
  breakingChangesFound : bool;
  featureChangesFound : bool;
  fixChangesFound : bool
}.

Definition noFlags : bumpFlags :=
  {| breakingChangesFound := false; featureChangesFound := false;
     fixChangesFound := false |}.

(** [for _, commit := range newCommits { ... }] with its [break]: the
    state after the loop, started in state [st]. *)
Fixpoint scanCommits (newCommits : list ConventionalCommit) (st : bumpFlags) : bumpFlags :=
  match newCommits with
  | [] => st
  | commit :: rest =>
      if IsBreakingChange commit then
        {| breakingChangesFound := true;
           featureChangesFound := featureChangesFound st;
           fixChangesFound := fixChangesFound st |}
      else
        let st1 :=
          if IsFeat commit
          then {| breakingChangesFound := breakingChangesFound st;
                  featureChangesFound := true;
                  fixChangesFound := fixChangesFound st |}
          else st in
        let st2 :=
          if IsFix commit
          then {| breakingChangesFound := breakingChangesFound st1;
                  featureChangesFound := featureChangesFound st1;
                  fixChangesFound := true |}
          else st1 in
        scanCommits rest st2
  end.

Definition newVersion (a : VersioningAction) (currentVersion : Version)
    (newCommits : list ConventionalCommit) (firstVersionCreated : bool)
    : outcome (option Version) :=
  if firstVersionCreated then
    if negb (branch a =? defaultBranch a)%string then
      short <- orPanic SliceOutOfRange (sliceTo (revision a) 7) ;;
      prereleaseVersion <- orPanic ErrInvalidPrerelease (SetPrerelease currentVersion short) ;;
      Ok (Some prereleaseVersion)
    else Ok (Some currentVersion)
  else
    let st := scanCommits newCommits noFlags in
    let nextVersion :=
      if breakingChangesFound st then IncMajor currentVersion
      else if featureChangesFound st then IncMinor currentVersion
      else if fixChangesFound st then IncPatch currentVersion
      else zeroVersion in
    if Version_eqb nextVersion zeroVersion then Ok None
    else if negb (branch a =? defaultBranch a)%string then
      short <- orPanic SliceOutOfRange (sliceTo (revision a) 7) ;;
      nextVersion' <- orPanic ErrInvalidPrerelease (SetPrerelease nextVersion short) ;;
      Ok (Some nextVersion')
    else Ok (Some nextVersion).

(** *** Changelog *)

Definition formatCommitChangelogEntry (commit : github.RepositoryCommit)
    (conventionalCommit : ConventionalCommit) : outcome string :=
  if negb (github.SHA commit =? "")%string then
    short <- orPanic SliceOutOfRange (sliceTo (github.SHA commit) 7) ;;
    Ok ("* [`" ++ short ++ "`](" ++ github.HTMLURL commit ++ ") "
          ++ Description conventionalCommit
          ++ " (@" ++ github.Login commit ++ ")" ++ nl)
  else
    Ok ("* [" ++ github.HTMLURL commit ++ "](" ++ Description conventionalCommit
          ++ ") (@" ++ github.Login commit ++ ")" ++ nl).

(** The four [strings.Builder]s and the [contributors] map (used as a
    set of logins) of [generateReleaseNotes]. *)
Record notesState : Type := {
  breakingChangesStr : string;
  featuresStr : string;
  fixesStr : string;
  contributorsStr : string;
  contributors : list string
}.

Definition breakingChangesInitial : string :=
  "### :hammer: Breaking Changes" ++ nl ++
  "_Breaking changes indicate that an existing behaviour or feature no longer works as before. Pay close attention to any listed breaking changes, and make sure they are acknowledged or mitigated before deploying this version._" ++ nl.

Definition featuresInitial : string :=
  "### :bulb: Features" ++ nl ++
  "_Feature changes contain some new functionality. Existing behaviour should not be affected._" ++ nl.

Definition fixesInitial : string :=
  "### :construction_worker: Fixes" ++ nl ++
  "_Fixes some unintended behaviour from a previous version. You should familiarise yourself with these changes to understand any problems you may have experienced in previous versions._" ++ nl.

Definition contributorsInitial : string :=
  "### :heart_eyes: Contributors" ++ nl ++
  "_These people contributed to this version of the component - thank you! Note: GitHub's auto-generated contributor list may also include contributors to other components._" ++ nl.

Definition releaseNotesTemplate : string :=
  nl ++
  "> Below is the changelog for this version. Changes are categorised by the type of change (breaking change, new feature, or bugfix). If there isn't a heading for a type of change, there were no relevant changes." ++ nl ++
  "{breaking}" ++ nl ++ "{features}" ++ nl ++ "{fixes}" ++ nl ++ "{contributors}" ++ nl.

Definition initialNotes : notesState :=
  {| breakingChangesStr := breakingChangesInitial;
     featuresStr := featuresInitial;
     fixesStr := fixesInitial;
     contributorsStr := contributorsInitial;
     contributors := [] |}.

(** The body of the loop of [generateReleaseNotes] once a commit has
    passed the scope test. *)
Definition recordCommit (commit : github.RepositoryCommit)
    (conventionalCommit : ConventionalCommit) (st : notesState) : outcome notesState :=
  st1 <- (if IsBreakingChange conventionalCommit then
            e <- formatCommitChangelogEntry commit conventionalCommit ;;
            Ok {| breakingChangesStr := breakingChangesStr st ++ e;
                  featuresStr := featuresStr st; fixesStr := fixesStr st;
                  contributorsStr := contributorsStr st;
                  contributors := contributors st |}
          else Ok st) ;;
  st2 <- (if IsFeat conventionalCommit then
            e <- formatCommitChangelogEntry commit conventionalCommit ;;
            Ok {| breakingChangesStr := breakingChangesStr st1;
                  featuresStr := featuresStr st1 ++ e; fixesStr := fixesStr st1;
                  contributorsStr := contributorsStr st1;
                  contributors := contributors st1 |}
          else Ok st1) ;;
  st3 <- (if IsFix conventionalCommit then
            e <- formatCommitChangelogEntry commit conventionalCommit ;;
            Ok {| breakingChangesStr := breakingChangesStr st2;
                  featuresStr := featuresStr st2; fixesStr := fixesStr st2 ++ e;
                  contributorsStr := contributorsStr st2;
                  contributors := contributors st2 |}
          else Ok st2) ;;
  if negb (existsb (String.eqb (github.Login commit)) (contributors st3)) then
    Ok {| breakingChangesStr := breakingChangesStr st3;
          featuresStr := featuresStr st3; fixesStr := fixesStr st3;
          contributorsStr := contributorsStr st3 ++ "* @" ++ github.Login commit ++ nl;
          contributors := github.Login commit :: contributors st3 |}
  else Ok st3.

Fixpoint collectNotes (a : VersioningAction) (commits : list github.RepositoryCommit)
    (st : notesState) : outcome notesState :=
  match commits with
  | [] => Ok st
  | commit :: rest =>
      match Parse (github.Message commit) with
      | None => collectNotes a rest st
      | Some conventionalCommit =>
          match Scope conventionalCommit with
          | None => collectNotes a rest st
          | Some scope =>
              if negb (EqualFold scope (component a)) then collectNotes a rest st
              else
                st' <- recordCommit commit conventionalCommit st ;;
                collectNotes a rest st'
          end
      end
  end.

(** One of the four closing [if ... Len() == ...InitialLength] steps. *)
Definition fillSection (template placeholder built initial : string) : string :=
  if (String.length built =? String.length initial)%nat
  then Replace1 template placeholder ""
  else Replace1 template placeholder built.

Definition generateReleaseNotes (a : VersioningAction)
    (commits : list github.RepositoryCommit) : outcome string :=
  st <- collectNotes a commits initialNotes ;;
  let t1 := fillSection releaseNotesTemplate "{breaking}"
              (breakingChangesStr st) breakingChangesInitial in
  let t2 := fillSection t1 "{features}" (featuresStr st) featuresInitial in
  let t3 := fillSection t2 "{fixes}" (fixesStr st) fixesInitial in
  let t4 := fillSection t3 "{contributors}" (contributorsStr st) contributorsInitial in
  Ok t4.

(** *** The GitHub API and the trace of calls *)

(** What the API answers.  A listing is the finite sequence of pages
    the server holds ([None]: the request for that page fails); a page
    past the last one is empty.  [GetCommit] gives the committer date
    of a revision. *)
Record Client : Type := {
  ListReleases : list (option (list github.RepositoryRelease));
  GetCommit : string -> option Time;
  ListCommits : string -> Time -> Time -> list (option (list github.RepositoryCommit));
  CreateRelease : github.RepositoryRelease -> bool
}.

Inductive Event : Type :=
| ListReleasesCall (page : nat)
| GetCommitCall (sha : string)
| ListCommitsCall (sha : string) (since until : Time) (page : nat)
| CreateReleaseCall (release : github.RepositoryRelease).

(** A computation that calls the API: the calls made, in order, and
    how it ended. *)
Definition M (A : Type) : Type := list Event * outcome A.

Definition ret {A} (a : A) : M A := ([], Ok a).
Definition lift {A} (o : outcome A) : M A := ([], o).
Definition call {A} (e : Event) (answer : option A) : M A :=
  ([e], orPanic ApiError answer).
Definition bind {A B} (m : M A) (k : A -> M B) : M B :=
  match m with
  | (t, Ok a) => let (t', r) := k a in ((t ++ t')%list, r)
  | (t, Panic why) => (t, Panic why)
  end.

(** The paging loop shared by [getAllReleases] and [getNewCommits]:
    request page [page], append it, stop after an empty page. *)
Fixpoint fetchPages {A} (request : nat -> Event) (pages : list (option (list A)))
    (page : nat) (existing : list A) : M (list A) :=
  match pages with
  | [] => bind (call (request page) (Some [])) (fun items => ret (existing ++ items)%list)
  | answer :: later =>
      bind (call (request page) answer) (fun items =>
        if (List.length items =? 0)%nat then ret (existing ++ items)%list
        else fetchPages request later (S page) (existing ++ items)%list)
  end.

Section WithClient.
Variable client : Client.
Variable a : VersioningAction.

Definition getAllReleases : M (list github.RepositoryRelease) :=
  fetchPages ListReleasesCall (ListReleases client) 1 [].

Definition getNewCommits (since : option Time) (until : Time) (branch : string)
    : M (list github.RepositoryCommit) :=
  let since' :=
    match since with
    | None => startOfEpoch
    | Some t => Add t Second
    end in
  fetchPages (ListCommitsCall branch since' until)
             (ListCommits client branch since' until) 1 [].

Definition getCurrentChangeTime : M Time :=
  call (GetCommitCall (revision a)) (GetCommit client (revision a)).

Definition getPreviousChangeTime (existingReleases : list github.RepositoryRelease)
    : M (option Time) :=
  match existingReleases with
  | [] => ret None
  | latestRelease :: _ =>
      let targetRevision := github.TargetCommitish latestRelease in
      bind (call (GetCommitCall targetRevision) (GetCommit client targetRevision))
           (fun commitTime => ret (Some commitTime))
  end.

Definition createGitHubRelease (newVersion : Version)
    (commits : list github.RepositoryCommit) : M unit :=
  let versionName :=
    ToLower (prefixWithComponent (component a) (VersionString newVersion)) in
  let releaseTitle :=
    if negb (label a =? "")%string
    then Title (label a) ++ ": " ++ VersionString newVersion
    else Title (component a) ++ ": " ++ VersionString newVersion in
  let isPrerelease := negb (branch a =? defaultBranch a)%string in
  let useGitHubGeneratedReleaseNotes := false in
  bind (lift (generateReleaseNotes a commits)) (fun releaseNotes =>
    let release :=
      {| github.TagName := versionName;
         github.Name := releaseTitle;
         github.TargetCommitish := revision a;
         github.GenerateReleaseNotes := useGitHubGeneratedReleaseNotes;
         github.Body := releaseNotes;
         github.Prerelease := isPrerelease;
         github.PublishedAt := 0%Z |} in
    call (CreateReleaseCall release)
         (if CreateRelease client release then Some tt else None)).

Definition GenerateVersion (dryRun : bool) : M (option Version) :=
  bind getAllReleases (fun allReleases =>
  let existingReleases := filterAndSortReleasesForComponent (component a) allReleases in
  bind (lift (existingVersionOrNew (component a) existingReleases (initialVersion a)))
       (fun '(existingVersion, firstVersionCreated) =>
  bind (getPreviousChangeTime existingReleases) (fun previousChangeTime =>
  bind getCurrentChangeTime (fun currentChangeTime =>
  bind (getNewCommits previousChangeTime (Add currentChangeTime Millisecond) (branch a))
       (fun newCommits =>
  let componentConventionalCommits :=
    convertAndFilterCommitsForComponent (component a) newCommits in
  bind (lift (newVersion a existingVersion componentConventionalCommits firstVersionCreated))
       (fun newVersion =>
  match newVersion with
  | None => ret None
  | Some v =>
      if dryRun then ret (Some v)
      else bind (createGitHubRelease v newCommits) (fun _ => ret (Some v))
  end)))))).

End WithClient.

End Action.


(** ** What the embedding relies on from the linked packages *)

(** On ASCII strings [strings.EqualFold] is its ASCII loop; [sort.Slice]
    rearranges the slice it is given and, when [less] compares a key
    with [>], leaves no element after one of smaller key. *)
Class GoTextLaws (text : GoText) : Prop := {
  EqualFold_ascii : forall s t,
    isASCII s = true -> isASCII t = true -> EqualFold s t = asciiEqualFold s t;
  SortSlice_permutation : forall less l, Permutation (SortSlice less l) l;
  SortSlice_descending : forall less (key : github.RepositoryRelease -> Z) l first others,
    (forall ri rj, less ri rj = (key rj <? key ri)%Z) ->
    SortSlice less l = first :: others ->
    forall r, In r others -> (key r <= key first)%Z
}.

(** [==] on [semver.Version] is equality of the structs; an incremented
    version is never the zero struct (its [original] text is set); a
    successful [SetPrerelease] stores the label it was given. *)
Class SemverLaws (sv : Semver) : Prop := {
  Version_eqb_eq : forall v w, Version_eqb v w = true <-> v = w;
  IncMajor_not_zero : forall v, IncMajor v <> zeroVersion;
  IncMinor_not_zero : forall v, IncMinor v <> zeroVersion;
  IncPatch_not_zero : forall v, IncPatch v <> zeroVersion;
  SetPrerelease_label : forall v pre v',
    SetPrerelease v pre = Some v' -> VersionPrerelease v' = pre
}.

(** ** Reference instances of the interfaces

    Executable stand-ins for the linked packages, used to run the action
    on concrete inputs. *)

Module RefText.

Definition isLetter (a : ascii) : bool :=
  let n := N_of_ascii a in
  (((65 <=? n) && (n <=? 90)) || ((97 <=? n) && (n <=? 122)))%N.

Definition asciiUpper (a : ascii) : ascii :=
  let n := N_of_ascii a in
  if ((97 <=? n) && (n <=? 122))%N then ascii_of_N (n - 32) else a.

(** Title case on ASCII words: a letter that starts a word is put in
    upper case, the other letters in lower case. *)
Fixpoint titleFrom (inWord : bool) (s : string) : string :=
  match s with
  | EmptyString => EmptyString
  | String a s' =>
      String (if inWord then asciiLower a else asciiUpper a) (titleFrom (isLetter a) s')
  end.

Fixpoint insertBy {A} (less : A -> A -> bool) (x : A) (l : list A) : list A :=
  match l with
  | [] => [x]
  | y :: l' => if less y x then y :: insertBy less x l' else x :: l
  end.

(** A stable insertion sort for [sort.Slice]. *)
Fixpoint sortBy {A} (less : A -> A -> bool) (l : list A) : list A :=
  match l with
  | [] => []
  | x :: l' => insertBy less x (sortBy less l')
  end.

(** [q] may follow [p] in a slice sorted by decreasing [key]. *)
Definition notBefore {A} (key : A -> Z) (p q : A) : Prop := (key q <= key p)%Z.

Definition text : GoText :=
  {| ToLower := asciiToLower;
     EqualFold := asciiEqualFold;
     Title := titleFrom false;
     SortSlice := sortBy |}.

End RefText.

Module RefSemver.

(** The struct of the semver package. *)
Record version : Type := {
  major : Z;
  minor : Z;
  patch : Z;
  pre : string;
  metadata : string;
  original : string
}.

Definition zero : version :=
  {| major := 0; minor := 0; patch := 0; pre := ""; metadata := ""; original := "" |}.

Definition eqb (v w : version) : bool :=
  (major v =? major w)%Z && (minor v =? minor w)%Z && (patch v =? patch w)%Z
  && (pre v =? pre w)%string && (metadata v =? metadata w)%string
  && (original v =? original w)%string.

(** [int64] addition of one, with its wrap-around. *)
Definition succ64 (z : Z) : Z :=
  ((z + 1 + 2 ^ 63) mod 2 ^ 64 - 2 ^ 63)%Z.

(** [%d]. *)
Definition itoa (z : Z) : string := NilZero.string_of_int (Z.to_int z).

Definition toString (v : version) : string :=
  itoa (major v) ++ "." ++ itoa (minor v) ++ "." ++ itoa (patch v)
  ++ (if (pre v =? "")%string then "" else "-" ++ pre v)
  ++ (if (metadata v =? "")%string then "" else "+" ++ metadata v).

Definition originalVPrefix (v : version) : string :=
  if HasPrefix (original v) "v" then "v" else "".

Definition withOriginal (v : version) (prefix : string) : version :=
  {| major := major v; minor := minor v; patch := patch v; pre := pre v;
     metadata := metadata v; original := prefix ++ toString v |}.

Definition incMajor (v : version) : version :=
  withOriginal {| major := succ64 (major v); minor := 0; patch := 0; pre := "";
                  metadata := ""; original := original v |} (originalVPrefix v).

Definition incMinor (v : version) : version :=
  withOriginal {| major := major v; minor := succ64 (minor v); patch := 0; pre := "";
                  metadata := ""; original := original v |} (originalVPrefix v).

(** A version that carries a prerelease label only loses the label. *)
Definition incPatch (v : version) : version :=
  withOriginal {| major := major v; minor := minor v;
                  patch := if (pre v =? "")%string then succ64 (patch v) else patch v;
                  pre := ""; metadata := ""; original := original v |}
               (originalVPrefix v).

Definition isIdentChar (a : ascii) : bool :=
  let n := N_of_ascii a in
  (((48 <=? n) && (n <=? 57)) || ((65 <=? n) && (n <=? 90))
   || ((97 <=? n) && (n <=? 122)) || (n =? 45))%N.

Definition isDigit (a : ascii) : bool :=
  let n := N_of_ascii a in ((48 <=? n) && (n <=? 57))%N.

Fixpoint allChars (p : ascii -> bool) (s : string) : bool :=
  match s with
  | EmptyString => true
  | String a s' => p a && allChars p s'
  end.

(** The pieces of [s] between the occurrences of [sep]. *)
Fixpoint splitOn (sep : ascii) (s : string) : list string :=
  match s with
  | EmptyString => [EmptyString]
  | String a s' =>
      if Ascii.eqb a sep then EmptyString :: splitOn sep s'
      else match splitOn sep s' with
           | [] => [String a EmptyString]
           | piece :: pieces => String a piece :: pieces
           end
  end.

(** [s] cut at the first [sep], when there is one. *)
Fixpoint cutAt (sep : ascii) (s : string) : string * option string :=
  match s with
  | EmptyString => (EmptyString, None)
  | String a s' =>
      if Ascii.eqb a sep then (EmptyString, Some s')
      else let (before, after) := cutAt sep s' in (String a before, after)
  end.

(** Dot-separated, non-empty runs of letters, digits and hyphens. *)
Definition validIdentifiers (s : string) : bool :=
  forallb (fun piece => negb (piece =? "")%string && allChars isIdentChar piece)
          (splitOn "." s).

Fixpoint digitsValue (s : string) (acc : Z) : Z :=
  match s with
  | EmptyString => acc
  | String a s' => digitsValue s' (10 * acc + Z.of_N (N_of_ascii a) - 48)%Z
  end.

(** [strconv.ParseInt(s, 10, 64)] on a run of digits. *)
Definition parseSegment (s : string) : option Z :=
  if negb (s =? "")%string && allChars isDigit s then
    let z := digitsValue s 0 in
    if (z <? 2 ^ 63)%Z then Some z else None
  else None.

Definition optionalIdentifiers (o : option string) : option string :=
  match o with
  | None => Some ""
  | Some s => if validIdentifiers s then Some s else None
  end.

(** [v?MAJOR(.MINOR)?(.PATCH)?(-PRERELEASE)?(+METADATA)?]. *)
Definition parse (s : string) : option version :=
  let body := if HasPrefix s "v" then drop 1 s else s in
  let (front, meta) := cutAt "+" body in
  let (core, label) := cutAt "-" front in
  match optionalIdentifiers meta, optionalIdentifiers label with
  | Some m, Some p =>
      let build ma mi pa :=
        match ma, mi, pa with
        | Some x, Some y, Some z =>
            Some {| major := x; minor := y; patch := z; pre := p; metadata := m;
                    original := s |}
        | _, _, _ => None
        end in
      match splitOn "." core with
      | [a] => build (parseSegment a) (Some 0%Z) (Some 0%Z)
      | [a; b] => build (parseSegment a) (parseSegment b) (Some 0%Z)
      | [a; b; c] => build (parseSegment a) (parseSegment b) (parseSegment c)
      | _ => None
      end
  | _, _ => None
  end.

Definition setPrerelease (v : version) (label : string) : option version :=
  if negb (label =? "")%string && negb (validIdentifiers label) then None
  else Some (withOriginal {| major := major v; minor := minor v; patch := patch v;
                             pre := label; metadata := metadata v;
                             original := original v |} (originalVPrefix v)).

Definition semver : Semver :=
  {| Version := version;
     zeroVersion := zero;
     Version_eqb := eqb;
     NewVersion := parse;
     IncMajor := incMajor;
     IncMinor := incMinor;
     IncPatch := incPatch;
     SetPrerelease := setPrerelease;
     VersionPrerelease := pre;
     VersionString := toString |}.

End RefSemver.

Module RefCommits.

(** The header fields of a conventional commit. *)
Record commit : Type := {
  type : string;
  scope : option string;
  description : string;
  exclamation : bool
}.

(** [conventionalcommits.TypesConventional]. *)
Definition typesConventional : list string :=
  ["build"; "ci"; "chore"; "docs"; "feat"; "fix"; "perf"; "refactor"; "revert";
   "style"; "test"].

(** [s] without its last byte, and that byte. *)
Fixpoint unsnoc (s : string) : option (string * ascii) :=
  match s with
  | EmptyString => None
  | String a s' =>
      match unsnoc s' with
      | None => Some (EmptyString, a)
      | Some (front, last) => Some (String a front, last)
      end
  end.

Definition stripLast (c : ascii) (s : string) : option string :=
  match unsnoc s with
  | Some (front, last) => if Ascii.eqb last c then Some front else None
  | None => None
  end.

(** The header [type(scope)!: description] of the first line; the body
    and the footers of the message are not read. *)
Definition parse (message : string) : option commit :=
  let header := fst (RefSemver.cutAt (ascii_of_nat 10) message) in
  match RefSemver.cutAt ":" header with
  | (head, Some (String " " desc)) =>
      if (desc =? "")%string then None
      else
        let (head', bang) :=
          match stripLast "!" head with
          | Some h => (h, true)
          | None => (head, false)
          end in
        let finish ty sc :=
          if existsb (String.eqb ty) typesConventional
          then Some {| type := ty; scope := sc; description := desc;
                       exclamation := bang |}
          else None in
        match RefSemver.cutAt "(" head' with
        | (ty, None) => finish ty None
        | (ty, Some inner) =>
            match stripLast ")" inner with
            | Some sc => if (sc =? "")%string then None else finish ty (Some sc)
            | None => None
            end
        end
  | _ => None
  end.

Definition commits : ConventionalCommits :=
  {| ConventionalCommit := commit;
     Parse := parse;
     Scope := scope;
     Description := description;
     IsBreakingChange := exclamation;
     IsFeat := fun c => (type c =? "feat")%string;
     IsFix := fun c => (type c =? "fix")%string |}.

End RefCommits.

(** ** Views of the code used in the statements *)

Section Views.
Context {text : GoText} {sv : Semver} {cc : ConventionalCommits}.

Local Open Scope outcome_scope.

(** The closing step of both paths of [newVersion], from the test
    [a.branch != a.defaultBranch] to the [return], as a function of the
    version computed before it. *)
Definition markPrerelease (a : VersioningAction) (v : Version) : outcome (option Version) :=
  if negb (branch a =? defaultBranch a)%string then
    short <- orPanic SliceOutOfRange (sliceTo (revision a) 7) ;;
    v' <- orPanic ErrInvalidPrerelease (SetPrerelease v short) ;;
    Ok (Some v')
  else Ok (Some v).

(** The records the classifier yields for a list of commits, in order;
    a message that does not parse yields none. *)
Definition classify (commits : list github.RepositoryCommit) : list ConventionalCommit :=
  flat_map (fun commit =>
              match Parse (github.Message commit) with
              | Some record => [record]
              | None => []
              end) commits.

(** A record whose scope is present and equal to the component up to
    case. *)
Definition scopeMatches (component : string) (record : ConventionalCommit) : bool :=
  match Scope record with
  | Some scope => EqualFold scope component
  | None => false
  end.

(** No record of the list is flagged breaking. *)
Definition noneBreaking (cs : list ConventionalCommit) : Prop :=
  forall c, In c cs -> IsBreakingChange c = false.

(** The version [newVersion] holds when it reaches the branch test:
    the current version on a first creation, the increment chosen by
    the scan otherwise, none when the scan found nothing. *)
Definition baseVersion (v : Version) (cs : list ConventionalCommit)
    (firstVersionCreated : bool) : option Version :=
  if firstVersionCreated then Some v
  else
    let st := scanCommits cs noFlags in
    if breakingChangesFound st then Some (IncMajor v)
    else if featureChangesFound st then Some (IncMinor v)
    else if fixChangesFound st then Some (IncPatch v)
    else None.

(** A release whose tag carries the component prefix. *)
Definition releaseMatches (component : string) (release : github.RepositoryRelease) : bool :=
  HasPrefix (ToLower (github.TagName release)) (getComponentPrefix component).

(** [GenerateVersion] up to the call of [newVersion]: the version to
    start from, whether it is a first creation, and the commits of the
    window. *)
Definition resolveInputs (client : Client) (a : VersioningAction)
    : M (Version * bool * list github.RepositoryCommit) :=
  bind (getAllReleases client) (fun allReleases =>
  let existingReleases := filterAndSortReleasesForComponent (component a) allReleases in
  bind (lift (existingVersionOrNew (component a) existingReleases (initialVersion a)))
       (fun '(existingVersion, firstVersionCreated) =>
  bind (getPreviousChangeTime client existingReleases) (fun previousChangeTime =>
  bind (getCurrentChangeTime client a) (fun currentChangeTime =>
  bind (getNewCommits client previousChangeTime (Add currentChangeTime Millisecond) (branch a))
       (fun newCommits => ret (existingVersion, firstVersionCreated, newCommits)))))).

(** [GenerateVersion] after the call of [newVersion]. *)
Definition publish (client : Client) (a : VersioningAction) (dryRun : bool)
    (newVersion : option Version) (newCommits : list github.RepositoryCommit)
    : M (option Version) :=
  match newVersion with
  | None => ret None
  | Some v =>
      if dryRun then ret (Some v)
      else bind (createGitHubRelease client a v newCommits) (fun _ => ret (Some v))
  end.

Definition isCreateRelease (e : Event) : bool :=
  match e with
  | CreateReleaseCall _ => true
  | _ => false
  end.

(** The trace holds no request for a release (as a test). *)
Definition quiet (t : list Event) : Prop :=
  forallb (fun e => negb (isCreateRelease e)) t = true.

(** The start of the window [getNewCommits] asks for. *)
Definition windowStart (since : option Time) : Time :=
  match since with
  | None => startOfEpoch
  | Some t => Add t Second
  end.

(** No release was requested in a trace. *)
Definition noReleaseRequested (t : list Event) : Prop :=
  forall release, ~ In (CreateReleaseCall release) t.

End Views.

(** ** Inputs for the examples *)

Module Sample.

Definition action (branch revision initialVersion : string) : VersioningAction :=
  {| owner := "acme"; repository := "mono"; component := "foo"; label := "";
     branch := branch; revision := revision; initialVersion := initialVersion;
     defaultBranch := "main" |}.

Definition release (tag target : string) (published : Time) : github.RepositoryRelease :=
  {| github.TagName := tag; github.Name := tag; github.TargetCommitish := target;
     github.GenerateReleaseNotes := false; github.Body := "";
     github.Prerelease := false; github.PublishedAt := published |}.

Definition commit (sha message : string) : github.RepositoryCommit :=
  {| github.SHA := sha; github.HTMLURL := "https://example.test/c/" ++ sha;
     github.Message := message; github.Login := "bob" |}.

Definition record (type : string) (scope : option string) (bang : bool) : RefCommits.commit :=
  {| RefCommits.type := type; RefCommits.scope := scope;
     RefCommits.description := "change"; RefCommits.exclamation := bang |}.

Definition version (major minor patch : Z) (original : string) : RefSemver.version :=
  {| RefSemver.major := major; RefSemver.minor := minor; RefSemver.patch := patch;
     RefSemver.pre := ""; RefSemver.metadata := ""; RefSemver.original := original |}.

(** A repository whose API holds [releases] on one page and [commits]
    on one page for every window, and knows the committer date of two
    revisions. *)
Definition client (releases : list github.RepositoryRelease)
    (commits : list github.RepositoryCommit) : Client :=
  {| ListReleases := [Some releases];
     GetCommit := fun sha =>
       if (sha =? "1111111aaaaaaa")%string then Some 1700000000000000000%Z
       else if (sha =? "abcdef1234")%string then Some 1700000600000000000%Z
       else None;
     ListCommits := fun _ _ _ => [Some commits];
     CreateRelease := fun _ => true |}.

Definition main : VersioningAction := action "main" "abcdef1234" "1.0.0".
Definition feature : VersioningAction := action "feature-1" "abcdef1234" "1.0.0".
Definition shortRevision : VersioningAction := action "feature-1" "abc" "1.0.0".
Definition badInitial : VersioningAction := action "main" "abcdef1234" "not-a-version".
Definition unknownRevision : VersioningAction := action "main" "fffffff0000000" "1.0.0".

Definition v100 : RefSemver.version := version 1 0 0 "1.0.0".
Definition v123 : RefSemver.version := version 1 2 3 "1.2.3".
Definition v124pre : RefSemver.version :=
  {| RefSemver.major := 1; RefSemver.minor := 2; RefSemver.patch := 4;
     RefSemver.pre := "abcdef1"; RefSemver.metadata := "";
     RefSemver.original := "1.2.4-abcdef1" |}.

Definition fixR : RefCommits.commit := record "fix" (Some "foo") false.
Definition featR : RefCommits.commit := record "feat" (Some "foo") false.
Definition choreR : RefCommits.commit := record "chore" (Some "foo") false.
Definition breakingR : RefCommits.commit := record "feat" (Some "foo") true.

Definition fooReleases : list github.RepositoryRelease :=
  [release "foo-1.2.2" "0000000bbbbbbb" 1600000000000000000%Z;
   release "bar-9.0.0" "1111111aaaaaaa" 1800000000000000000%Z;
   release "foo-1.2.3" "1111111aaaaaaa" 1699999000000000000%Z].

Definition barReleases : list github.RepositoryRelease :=
  [release "bar-9.0.0" "1111111aaaaaaa" 1800000000000000000%Z].

Definition untaggedReleases : list github.RepositoryRelease :=
  [release "foo-latest" "1111111aaaaaaa" 1699999000000000000%Z].

Definition quietCommits : list github.RepositoryCommit :=
  [commit "c0ffee0123456789" "chore(foo): tidy";
   commit "deadbeef01234567" "feat(bar): gizmo"].

Definition fixCommits : list github.RepositoryCommit :=
  [commit "c0ffee0123456789" "fix(foo): mend";
   commit "deadbeef01234567" "feat(bar): gizmo"].

Definition mixedCaseCommits : list github.RepositoryCommit :=
  [commit "c0ffee0123456789" "fix(Foo): mend";
   commit "deadbeef01234567" "feat(bar): gizmo";
   commit "0123456789abcdef" "no header here";
   commit "89abcdef01234567" "chore: tidy"].

(** The calls that fetch the inputs from [client fooReleases _] for the
    revision [abcdef1234] on [main]. *)
Definition fooTrace : list Event :=
  [ListReleasesCall 1; ListReleasesCall 2;
   GetCommitCall "1111111aaaaaaa"; GetCommitCall "abcdef1234";
   ListCommitsCall "main" 1700000001000000000%Z 1700000600001000000%Z 1;
   ListCommitsCall "main" 1700000001000000000%Z 1700000600001000000%Z 2].

(** The same for a repository without release of the component. *)
Definition firstTrace : list Event :=
  [ListReleasesCall 1; ListReleasesCall 2; GetCommitCall "abcdef1234";
   ListCommitsCall "main" 0%Z 1700000600001000000%Z 1;
   ListCommitsCall "main" 0%Z 1700000600001000000%Z 2].

End Sample.

(** ** The constructor of the action and the command around it *)

(** [strings.Split(s, sep)] for a separator of one byte: the pieces of
    [s] between the occurrences of [sep], at least one piece. *)
Fixpoint SplitByte (sep : ascii) (s : string) : list string :=
  match s with
  | EmptyString => [EmptyString]
  | String c s' =>
      if Ascii.eqb c sep then EmptyString :: SplitByte sep s'
      else match SplitByte sep s' with
           | [] => [String c EmptyString]
           | piece :: pieces => String c piece :: pieces
           end
  end.

(** [NewAction]; [None] is the index-out-of-range panic of
    [nameParts[1]].  The client and the parser of the struct are the
    [Client] and the [ConventionalCommits] instance the functions take. *)
Definition NewAction (ownerAndRepository component label branch revision
    initialVersion defaultBranch : string) : option VersioningAction :=
  let nameParts := SplitByte "/" ownerAndRepository in
  match nth_error nameParts 0, nth_error nameParts 1 with
  | Some owner, Some repository =>
      Some {| owner := owner;
              repository := repository;
              component := component;
              label := label;
              branch := branch;
              revision := revision;
              initialVersion := initialVersion;
              defaultBranch := defaultBranch |}
  | _, _ => None
  end.

(** The strings of a list, one after the other. *)
Fixpoint joinStrings (l : list string) : string :=
  match l with
  | [] => EmptyString
  | s :: l' => s ++ joinStrings l'
  end.

Section Command.
Context {text : GoText} {sv : Semver} {cc : ConventionalCommits}.

(** [isDryRun] of the command. *)
Definition isDryRun (input : string) : bool :=
  EqualFold input "yes" || EqualFold input "true".

(** The [output.WriteString] calls at the end of [main], in order, for
    the value [GenerateVersion] returned. *)
Definition writeOutputs (newVersion : option Version) : list string :=
  match newVersion with
  | None =>
      ["new_version_created=no" ++ nl; "version=0.0.0-none" ++ nl; "prerelease=no" ++ nl]
  | Some v =>
      ["new_version_created=yes" ++ nl;
       "version=" ++ VersionString v;
       if (VersionPrerelease v =? "")%string
       then "prerelease=no" ++ nl
       else "prerelease=yes" ++ nl]
  end.

(** What the output file receives. *)
Definition outputText (newVersion : option Version) : string :=
  joinStrings (writeOutputs newVersion).

(** The [github.RepositoryRelease] that [createGitHubRelease] builds for
    a version and the notes it has generated. *)
Definition releaseFor (a : VersioningAction) (newVersion : Version) (releaseNotes : string)
    : github.RepositoryRelease :=
  {| github.TagName :=
       ToLower (prefixWithComponent (component a) (VersionString newVersion));
     github.Name :=
       if negb (label a =? "")%string
       then Title (label a) ++ ": " ++ VersionString newVersion
       else Title (component a) ++ ": " ++ VersionString newVersion;
     github.TargetCommitish := revision a;
     github.GenerateReleaseNotes := false;
     github.Body := releaseNotes;
     github.Prerelease := negb (branch a =? defaultBranch a)%string;
     github.PublishedAt := 0%Z |}.

(** A commit the changelog loop does not skip: its message parses and
    its scope is the component up to case. *)
Definition isRelevant (a : VersioningAction) (commit : github.RepositoryCommit) : bool :=
  match Parse (github.Message commit) with
  | Some record => scopeMatches (component a) record
  | None => false
  end.

(** A record that counts for a bump. *)
Definition flagged (record : ConventionalCommit) : bool :=
  IsBreakingChange record || IsFeat record || IsFix record.

(** The entries of the commits of kind [kind] (breaking, feature or
    fix), in the order of the commits. *)
Definition bucket (kind : ConventionalCommit -> bool) (a : VersioningAction)
    (commits : list github.RepositoryCommit) : list (outcome string) :=
  flat_map (fun commit =>
              match Parse (github.Message commit) with
              | Some record =>
                  if scopeMatches (component a) record && kind record
                  then [formatCommitChangelogEntry commit record]
                  else []
              | None => []
              end) commits.

(** The texts of a list of entries that were all formatted. *)
Fixpoint entryTexts (entries : list (outcome string)) : list string :=
  match entries with
  | [] => []
  | Ok e :: rest => e :: entryTexts rest
  | Panic _ :: rest => entryTexts rest
  end.

(** A SHA the entry formatter accepts: empty, or of at least 7 bytes. *)
Definition shaAccepted (commit : github.RepositoryCommit) : bool :=
  (github.SHA commit =? "")%string || (7 <=? String.length (github.SHA commit))%nat.

(** The byte [c] occurs in [s]. *)
Fixpoint hasByte (c : ascii) (s : string) : bool :=
  match s with
  | EmptyString => false
  | String b s' => Ascii.eqb b c || hasByte c s'
  end.

(** A section of the notes: its heading and caption followed by its
    lines, or nothing when it has no line. *)
Definition renderSection (heading : string) (lines : list string) : string :=
  match lines with
  | [] => EmptyString
  | _ :: _ => heading ++ joinStrings lines
  end.

(** The caption that opens the notes. *)
Definition notesCaption : string :=
  "> Below is the changelog for this version. Changes are categorised by the type of change (breaking change, new feature, or bugfix). If there isn't a heading for a type of change, there were no relevant changes.".

(** The line of a contributor. *)
Definition contributorLine (login : string) : string := "* @" ++ login ++ nl.

(** The authors of the commits of the component, one per commit, in the
    order of the commits. *)
Definition authorsOf (a : VersioningAction) (commits : list github.RepositoryCommit)
    : list string :=
  map github.Login (filter (isRelevant a) commits).

(** The logins of a list, each kept at its first place only. *)
Fixpoint firstAppearances (logins : list string) : list string :=
  match logins with
  | [] => []
  | login :: rest =>
      login :: filter (fun other => negb (String.eqb login other)) (firstAppearances rest)
  end.

(** The stage of a run a call belongs to. *)
Definition phase (e : Event) : nat :=
  match e with
  | ListReleasesCall _ => 0
  | GetCommitCall _ => 1
  | ListCommitsCall _ _ _ _ => 2
  | CreateReleaseCall _ => 3
  end.

(** The stages of a trace never go back, starting from stage [lo]. *)
Fixpoint inStageOrder (lo : nat) (t : list Event) : Prop :=
  match t with
  | [] => True
  | e :: t' => (lo <= phase e)%nat /\ inStageOrder (phase e) t'
  end.

(** The calls of a trace are in stage order between two stages. *)
Definition staged (lo hi : nat) (t : list Event) : Prop :=
  inStageOrder lo t /\ forall e, In e t -> (phase e <= hi)%nat.

End Command.

(** On ASCII strings [strings.ToLower] lowers the 26 capital letters
    byte by byte. *)
Class GoLowerLaws (text : GoText) : Prop := {
  ToLower_ascii : forall s, isASCII s = true -> ToLower s = asciiToLower s
}.

(** ** More inputs for the examples *)

Module MoreSamples.

Definition commitBy (sha message login : string) : github.RepositoryCommit :=
  {| github.SHA := sha; github.HTMLURL := "https://example.test/c/" ++ sha;
     github.Message := message; github.Login := login |}.

(** Five commits of a window: three of the component [foo] that count
    (one of them scoped [Foo]), one of another component, and a chore
    without SHA. *)
Definition changelogCommits : list github.RepositoryCommit :=
  [commitBy "c0ffee0123456789" "fix(foo): mend" "bob";
   commitBy "a11ce00123456789" "feat(foo)!: rework" "alice";
   commitBy "deadbeef01234567" "feat(bar): gizmo" "dave";
   commitBy "" "chore(foo): tidy" "carol";
   commitBy "0b0b0b0123456789" "fix(Foo): again" "bob"].

Definition shortShaCommits : list github.RepositoryCommit :=
  [commitBy "deadbeef01234567" "feat(bar): gizmo" "dave";
   commitBy "0123" "fix(foo): mend" "bob"].

Definition stateOf (o : outcome notesState) : notesState :=
  match o with
  | Ok st => st
  | Panic _ => initialNotes
  end.

Definition textOf (o : outcome string) : string :=
  match o with
  | Ok s => s
  | Panic _ => EmptyString
  end.

(** The state of the changelog loop after [changelogCommits]. *)
Definition changelogState : notesState :=
  stateOf (collectNotes (text := RefText.text) (cc := RefCommits.commits)
             Sample.main changelogCommits initialNotes).

(** The notes of the release 1.2.4 of [Sample.fixCommits]. *)
Definition fixNotes : string :=
  textOf (generateReleaseNotes (text := RefText.text) (cc := RefCommits.commits)
            Sample.main Sample.fixCommits).

(** 1.2.4 with a label in capital letters, and 1.0.0 with a label. *)
Definition shoutedVersion : RefSemver.version :=
  {| RefSemver.major := 1; RefSemver.minor := 2; RefSemver.patch := 4;
     RefSemver.pre := "ABCDEF1"; RefSemver.metadata := "";
     RefSemver.original := "1.2.4-ABCDEF1" |}.

Definition candidate : RefSemver.version :=
  {| RefSemver.major := 1; RefSemver.minor := 0; RefSemver.patch := 0;
     RefSemver.pre := "rc1"; RefSemver.metadata := "";
     RefSemver.original := "1.0.0-rc1" |}.

(** The server holds an empty second page of releases and a third page
    that is never asked for. *)
Definition gappedClient : Client :=
  {| ListReleases :=
       [Some [Sample.release "foo-1.2.3" "1111111aaaaaaa" 1699999000000000000%Z];
        Some [];
        Some [Sample.release "foo-9.9.9" "1111111aaaaaaa" 1799999000000000000%Z]];
     GetCommit := fun _ => None;
     ListCommits := fun _ _ _ => [];
     CreateRelease := fun _ => true |}.

End MoreSamples.

(** * Properties *)

(** ** Byte strings *)

Lemma prefix_append (p v : string) : String.prefix p (p ++ v) = true.
Proof.
  induction p as [|c p IH]; simpl.
  - now destruct v.
  - destruct (ascii_dec c c) as [_|ne]; [exact IH | now elim ne].
Qed.

Lemma drop_append (p v : string) : drop (String.length p) (p ++ v) = v.
Proof. induction p as [|c p IH]; simpl; [reflexivity | exact IH]. Qed.

Lemma TrimPrefix_append (p v : string) : TrimPrefix (p ++ v) p = v.
Proof.
  unfold TrimPrefix, HasPrefix. rewrite prefix_append. apply drop_append.
Qed.

Lemma sliceTo_Some (s : string) (n : nat) (r : string) :
  sliceTo s n = Some r <-> (n <= String.length s)%nat /\ r = substring 0 n s.
Proof.
  unfold sliceTo. destruct (Nat.leb_spec n (String.length s)); split.
  - intros [= <-]. now split.
  - intros [_ ->]. reflexivity.
  - discriminate.
  - intros [Hle _]. lia.
Qed.

Lemma sliceTo_None (s : string) (n : nat) :
  sliceTo s n = None <-> (String.length s < n)%nat.
Proof.
  unfold sliceTo. destruct (Nat.leb_spec n (String.length s)); split;
    try discriminate; try reflexivity; lia.
Qed.

Section Properties.
Context {text : GoText} {sv : Semver} {cc : ConventionalCommits}.

(** ** Tag prefixes *)

(** C8. Stripping the component prefix from a tag built by
    [prefixWithComponent] gives the version string back, for every
    component and every version string. *)
Theorem strip_prefixWithComponent (c v : string) :
  TrimPrefix (prefixWithComponent c v) (getComponentPrefix c) = v.
Proof. unfold prefixWithComponent. apply TrimPrefix_append. Qed.

(** ** The scope filter *)

Lemma convertAndFilter_filter (component : string) (commits : list github.RepositoryCommit) :
  convertAndFilterCommitsForComponent component commits
  = filter (scopeMatches component) (classify commits).
Proof.
  unfold classify.
  induction commits as [|commit rest IH]; simpl; [reflexivity|].
  destruct (Parse (github.Message commit)) as [record|]; simpl; [|exact IH].
  unfold scopeMatches at 1.
  destruct (Scope record) as [scope|]; [|exact IH].
  destruct (EqualFold scope component); [now rewrite IH | exact IH].
Qed.

(** C5. The scope filter keeps, in order, exactly the records of the
    commits whose scope is present and equal to the component up to
    case; a record without scope is never kept; a record scoped "Foo"
    is kept for the component "foo". *)
Theorem scope_filter_exact {laws : GoTextLaws text}
    (component : string) (commits : list github.RepositoryCommit) :
  convertAndFilterCommitsForComponent component commits
    = filter (scopeMatches component) (classify commits)
  /\ (forall record,
        In record (convertAndFilterCommitsForComponent component commits)
        <-> In record (classify commits)
            /\ exists scope, Scope record = Some scope
                             /\ EqualFold scope component = true)
  /\ (forall record,
        Scope record = None ->
        ~ In record (convertAndFilterCommitsForComponent component commits))
  /\ (forall record,
        In record (classify commits) -> Scope record = Some "Foo" ->
        In record (convertAndFilterCommitsForComponent "foo" commits)).
Proof.
  assert (Hin : forall c record,
             In record (convertAndFilterCommitsForComponent c commits)
             <-> In record (classify commits)
                 /\ exists scope, Scope record = Some scope
                                  /\ EqualFold scope c = true).
  { intros c record. rewrite convertAndFilter_filter, filter_In.
    unfold scopeMatches. split.
    - intros [Hin Hm]. split; [exact Hin|].
      destruct (Scope record) as [scope|]; [|discriminate]. now exists scope.
    - intros [Hin (scope & Hs & Hm)]. split; [exact Hin|]. now rewrite Hs. }
  split; [apply convertAndFilter_filter|].
  split; [apply Hin|]. split.
  - intros record Hnone Hkept. apply Hin in Hkept.
    destruct Hkept as [_ (scope & Hs & _)]. congruence.
  - intros record Hrec Hscope. apply Hin. split; [exact Hrec|].
    exists "Foo". split; [exact Hscope|].
    now rewrite EqualFold_ascii.
Qed.

(** ** The bump scan *)

Lemma scanCommits_noneBreaking (cs : list ConventionalCommit) (st : bumpFlags) :
  noneBreaking cs ->
  scanCommits cs st
  = {| breakingChangesFound := breakingChangesFound st;
       featureChangesFound := featureChangesFound st || existsb IsFeat cs;
       fixChangesFound := fixChangesFound st || existsb IsFix cs |}.
Proof.
  revert st. induction cs as [|c cs IH]; intros st Hnone; simpl.
  - destruct st; simpl. now rewrite !orb_false_r.
  - rewrite (Hnone c (or_introl eq_refl)).
    rewrite IH by (intros c' Hc'; apply Hnone; now right).
    destruct (IsFeat c), (IsFix c); simpl;
      rewrite ?orb_true_r, ?orb_false_r; simpl; reflexivity.
Qed.

Lemma scanCommits_stops (pre post : list ConventionalCommit) (b : ConventionalCommit)
    (st : bumpFlags) :
  noneBreaking pre -> IsBreakingChange b = true ->
  scanCommits (pre ++ b :: post) st
  = {| breakingChangesFound := true;
       featureChangesFound := featureChangesFound st || existsb IsFeat pre;
       fixChangesFound := fixChangesFound st || existsb IsFix pre |}.
Proof.
  revert st. induction pre as [|c pre IH]; intros st Hnone Hb; simpl.
  - rewrite Hb. now rewrite !orb_false_r.
  - rewrite (Hnone c (or_introl eq_refl)).
    rewrite IH by (try exact Hb; intros c' Hc'; apply Hnone; now right).
    destruct (IsFeat c), (IsFix c); simpl;
      rewrite ?orb_true_r, ?orb_false_r; simpl; reflexivity.
Qed.

(** A list with a breaking record splits at its first one. *)
Lemma first_breaking (cs : list ConventionalCommit) :
  (exists c, In c cs /\ IsBreakingChange c = true) ->
  exists pre b post,
    cs = (pre ++ b :: post)%list /\ noneBreaking pre /\ IsBreakingChange b = true.
Proof.
  induction cs as [|c cs IH]; intros (x & Hin & Hx); [destruct Hin|].
  destruct (IsBreakingChange c) eqn:Hc.
  - exists [], c, cs. repeat split; [intros ? []|exact Hc].
  - destruct IH as (pre & b & post & -> & Hpre & Hb).
    { destruct Hin as [->|Hin]; [congruence | now exists x]. }
    exists (c :: pre), b, post. repeat split; [|exact Hb].
    intros c' [<-|Hc']; [exact Hc | now apply Hpre].
Qed.

Lemma existsb_false_iff {A} (f : A -> bool) (l : list A) :
  existsb f l = false <-> forall x, In x l -> f x = false.
Proof.
  split.
  - intros H x Hin. destruct (f x) eqn:Hf; [|reflexivity].
    rewrite <- H. symmetry. apply existsb_exists. now exists x.
  - intros H. destruct (existsb f l) eqn:He; [|reflexivity].
    apply existsb_exists in He. destruct He as (x & Hin & Hf).
    rewrite (H x Hin) in Hf. discriminate.
Qed.

Lemma Version_eqb_refl {laws : SemverLaws sv} (v : Version) : Version_eqb v v = true.
Proof. now apply Version_eqb_eq. Qed.

Lemma Version_eqb_neq {laws : SemverLaws sv} (v w : Version) :
  v <> w -> Version_eqb v w = false.
Proof.
  intros Hne. destruct (Version_eqb v w) eqn:He; [|reflexivity].
  apply Version_eqb_eq in He. contradiction.
Qed.

(** The body of [newVersion] after the scan, for a version that is
    not the zero struct. *)
Lemma newVersion_of_flags {laws : SemverLaws sv} (a : VersioningAction)
    (v next : Version) (cs : list ConventionalCommit) :
  next <> zeroVersion ->
  (if breakingChangesFound (scanCommits cs noFlags) then IncMajor v
   else if featureChangesFound (scanCommits cs noFlags) then IncMinor v
   else if fixChangesFound (scanCommits cs noFlags) then IncPatch v
   else zeroVersion) = next ->
  newVersion a v cs false = markPrerelease a next.
Proof.
  intros Hnz Hnext. unfold newVersion, markPrerelease. cbv zeta.
  rewrite Hnext, (Version_eqb_neq _ _ Hnz). reflexivity.
Qed.

(** C1. When the version is not a first creation: a breaking record
    anywhere gives the major increment; failing that a feature record
    gives the minor increment; failing that a fix record gives the
    patch increment; the scan stops at the first breaking record, so
    its flags are those of the records before it and the records
    after it are not looked at. The version found then goes through
    the closing branch test, which leaves it unchanged on the
    default branch. *)
Theorem bump_priority {laws : SemverLaws sv} (a : VersioningAction)
    (v : Version) (cs : list ConventionalCommit) :
  ((exists c, In c cs /\ IsBreakingChange c = true) ->
     newVersion a v cs false = markPrerelease a (IncMajor v))
  /\ (noneBreaking cs -> (exists c, In c cs /\ IsFeat c = true) ->
      newVersion a v cs false = markPrerelease a (IncMinor v))
  /\ (noneBreaking cs -> (forall c, In c cs -> IsFeat c = false) ->
      (exists c, In c cs /\ IsFix c = true) ->
      newVersion a v cs false = markPrerelease a (IncPatch v))
  /\ (forall pre b post,
        cs = (pre ++ b :: post)%list -> noneBreaking pre -> IsBreakingChange b = true ->
        scanCommits cs noFlags = scanCommits (pre ++ [b]) noFlags
        /\ scanCommits cs noFlags
           = {| breakingChangesFound := true;
                featureChangesFound := existsb IsFeat pre;
                fixChangesFound := existsb IsFix pre |})
  /\ (branch a = defaultBranch a ->
      forall next, markPrerelease a next = Ok (Some next)).
Proof.
  repeat split.
  - intros Hex. apply first_breaking in Hex.
    destruct Hex as (pre & b & post & -> & Hpre & Hb).
    apply newVersion_of_flags; [apply IncMajor_not_zero|].
    now rewrite (scanCommits_stops pre post b noFlags Hpre Hb).
  - intros Hnone (c & Hin & Hfeat).
    apply newVersion_of_flags; [apply IncMinor_not_zero|].
    rewrite (scanCommits_noneBreaking cs noFlags Hnone). simpl.
    assert (He : existsb IsFeat cs = true) by (apply existsb_exists; now exists c).
    now rewrite He.
  - intros Hnone Hnofeat (c & Hin & Hfix).
    apply newVersion_of_flags; [apply IncPatch_not_zero|].
    rewrite (scanCommits_noneBreaking cs noFlags Hnone). simpl.
    assert (He : existsb IsFix cs = true) by (apply existsb_exists; now exists c).
    apply existsb_false_iff in Hnofeat. now rewrite Hnofeat, He.
  - subst cs. now rewrite !(scanCommits_stops pre _ b noFlags).
  - subst cs. now rewrite (scanCommits_stops pre post b noFlags).
  - intros Heq next. unfold markPrerelease.
    apply String.eqb_eq in Heq. now rewrite Heq.
Qed.

(** Without any breaking, feature or fix record there is no new
    version. *)
Lemma newVersion_no_change {laws : SemverLaws sv} (a : VersioningAction)
    (v : Version) (cs : list ConventionalCommit) :
  (forall c, In c cs ->
     IsBreakingChange c = false /\ IsFeat c = false /\ IsFix c = false) ->
  newVersion a v cs false = Ok None.
Proof.
  intros Hnone. unfold newVersion.
  rewrite (scanCommits_noneBreaking cs noFlags) by (intros c Hc; now apply Hnone).
  cbn [breakingChangesFound featureChangesFound fixChangesFound noFlags orb].
  assert (Hfeat : existsb IsFeat cs = false)
    by (apply existsb_false_iff; intros c Hc; now apply Hnone).
  assert (Hfix : existsb IsFix cs = false)
    by (apply existsb_false_iff; intros c Hc; now apply Hnone).
  rewrite Hfeat, Hfix, Version_eqb_refl. reflexivity.
Qed.

Lemma newVersion_baseVersion {laws : SemverLaws sv} (a : VersioningAction)
    (v : Version) (cs : list ConventionalCommit) (first : bool) :
  newVersion a v cs first
  = match baseVersion v cs first with
    | Some b => markPrerelease a b
    | None => Ok None
    end.
Proof.
  unfold newVersion, baseVersion, markPrerelease. destruct first; [reflexivity|].
  cbv zeta.
  destruct (breakingChangesFound (scanCommits cs noFlags)).
  { now rewrite (Version_eqb_neq _ _ (IncMajor_not_zero v)). }
  destruct (featureChangesFound (scanCommits cs noFlags)).
  { now rewrite (Version_eqb_neq _ _ (IncMinor_not_zero v)). }
  destruct (fixChangesFound (scanCommits cs noFlags)).
  { now rewrite (Version_eqb_neq _ _ (IncPatch_not_zero v)). }
  now rewrite Version_eqb_refl.
Qed.

(** ** Prerelease labels *)

(** C4. Take an invocation of [newVersion] that has a version [b] to
    return (first creation or bump). On a branch other than the default
    one ([String.eqb] is exact, case-sensitive equality) and with a
    revision of at least 7 bytes, the version returned is [b] labelled
    with the first 7 bytes of the revision, and any version returned
    carries exactly that label; on the default branch no label is
    added: [b] is returned as it is; and where the label has to be
    computed, on a branch other than the default one, a revision
    shorter than 7 bytes panics. *)
Theorem prerelease_label {laws : SemverLaws sv} (a : VersioningAction)
    (v b : Version) (cs : list ConventionalCommit) (first : bool) :
  baseVersion v cs first = Some b ->
  (branch a <> defaultBranch a -> (7 <= String.length (revision a))%nat ->
     newVersion a v cs first
     = obind (orPanic ErrInvalidPrerelease
                      (SetPrerelease b (substring 0 7 (revision a))))
             (fun v' => Ok (Some v')))
  /\ (branch a <> defaultBranch a ->
      forall v', newVersion a v cs first = Ok (Some v') ->
        (7 <= String.length (revision a))%nat
        /\ SetPrerelease b (substring 0 7 (revision a)) = Some v'
        /\ VersionPrerelease v' = substring 0 7 (revision a))
  /\ (branch a = defaultBranch a -> newVersion a v cs first = Ok (Some b))
  /\ (branch a <> defaultBranch a -> (String.length (revision a) < 7)%nat ->
      newVersion a v cs first = Panic SliceOutOfRange).
Proof.
  intros Hbase. rewrite newVersion_baseVersion, Hbase. unfold markPrerelease.
  split; [|split; [|split]].
  - intros Hne Hlen. apply String.eqb_neq in Hne. rewrite Hne. simpl.
    unfold sliceTo. apply Nat.leb_le in Hlen. now rewrite Hlen.
  - intros Hne v' Hres. apply String.eqb_neq in Hne. rewrite Hne in Hres.
    simpl in Hres.
    destruct (sliceTo (revision a) 7) as [short|] eqn:Hs; [|discriminate].
    apply sliceTo_Some in Hs. destruct Hs as [Hlen ->]. simpl in Hres.
    destruct (SetPrerelease b (substring 0 7 (revision a))) as [w|] eqn:Hw;
      simpl in Hres; [|discriminate].
    injection Hres as <-.
    split; [exact Hlen|]. split; [reflexivity|].
    now apply SetPrerelease_label with (v := b).
  - intros Heq. apply String.eqb_eq in Heq. now rewrite Heq.
  - intros Hne Hlen. apply String.eqb_neq in Hne. rewrite Hne. simpl.
    apply sliceTo_None in Hlen. now rewrite Hlen.
Qed.

(** ** Computations that call the API *)

Lemma bind_ret {A B} (x : A) (k : A -> M B) : bind (ret x) k = k x.
Proof. unfold bind, ret. now destruct (k x). Qed.

Lemma bind_ext {A B} (m : M A) (k1 k2 : A -> M B) :
  (forall x, k1 x = k2 x) -> bind m k1 = bind m k2.
Proof.
  intros Hk. destruct m as [t [x|why]]; simpl; [now rewrite Hk | reflexivity].
Qed.

Lemma bind_assoc {A B C} (m : M A) (f : A -> M B) (g : B -> M C) :
  bind (bind m f) g = bind m (fun x => bind (f x) g).
Proof.
  destruct m as [t [x|why]]; simpl; [|reflexivity].
  destruct (f x) as [t1 [y|why]]; simpl; [|reflexivity].
  destruct (g y) as [t2 r]. now rewrite app_assoc.
Qed.

Lemma GenerateVersion_split (client : Client) (a : VersioningAction) (dryRun : bool) :
  GenerateVersion client a dryRun
  = bind (resolveInputs client a) (fun '(v, first, commits) =>
      bind (lift (newVersion a v
                    (convertAndFilterCommitsForComponent (component a) commits) first))
           (fun decision => publish client a dryRun decision commits)).
Proof.
  unfold GenerateVersion, resolveInputs.
  rewrite bind_assoc. apply bind_ext. intros allReleases.
  rewrite bind_assoc. apply bind_ext. intros [existingVersion first].
  rewrite bind_assoc. apply bind_ext. intros previousChangeTime.
  rewrite bind_assoc. apply bind_ext. intros currentChangeTime.
  rewrite bind_assoc. apply bind_ext. intros newCommits.
  rewrite bind_ret. reflexivity.
Qed.

(** *** Which calls a computation makes *)

Lemma quiet_noReleaseRequested (t : list Event) : quiet t -> noReleaseRequested t.
Proof.
  unfold quiet. rewrite forallb_forall. intros Hq release Hin.
  specialize (Hq _ Hin). discriminate.
Qed.

Lemma quiet_app (t1 t2 : list Event) : quiet t1 -> quiet t2 -> quiet (t1 ++ t2).
Proof. unfold quiet. rewrite forallb_app. now intros -> ->. Qed.

Lemma quiet_bind {A B} (m : M A) (k : A -> M B) :
  quiet (fst m) -> (forall x, quiet (fst (k x))) -> quiet (fst (bind m k)).
Proof.
  destruct m as [t [x|why]]; simpl; intros Ht Hk; [|exact Ht].
  specialize (Hk x). destruct (k x) as [t' r]. simpl in *. now apply quiet_app.
Qed.

Lemma quiet_fetchPages {A} (request : nat -> Event) (pages : list (option (list A)))
    (page : nat) (existing : list A) :
  (forall p, isCreateRelease (request p) = false) ->
  quiet (fst (fetchPages request pages page existing)).
Proof.
  intros Hreq. revert page existing.
  induction pages as [|answer later IH]; intros page existing; cbn [fetchPages].
  - unfold quiet. simpl. now rewrite Hreq.
  - apply quiet_bind.
    + unfold quiet. simpl. now rewrite Hreq.
    + intros items. destruct (List.length items =? 0)%nat; [reflexivity | apply IH].
Qed.

Lemma quiet_resolveInputs (client : Client) (a : VersioningAction) :
  quiet (fst (resolveInputs client a)).
Proof.
  unfold resolveInputs.
  apply quiet_bind; [now apply quiet_fetchPages|]. intros allReleases.
  apply quiet_bind; [reflexivity|]. intros [existingVersion first].
  apply quiet_bind.
  { unfold getPreviousChangeTime.
    destruct (filterAndSortReleasesForComponent (component a) allReleases);
      [reflexivity|].
    apply quiet_bind; [reflexivity | intros; reflexivity]. }
  intros previousChangeTime.
  apply quiet_bind; [reflexivity|]. intros currentChangeTime.
  apply quiet_bind; [now apply quiet_fetchPages | intros; reflexivity].
Qed.

Lemma GenerateVersion_resolved (client : Client) (a : VersioningAction) (dryRun : bool)
    (t : list Event) (v : Version) (first : bool)
    (commits : list github.RepositoryCommit) :
  resolveInputs client a = (t, Ok (v, first, commits)) ->
  GenerateVersion client a dryRun
  = bind (t, newVersion a v
               (convertAndFilterCommitsForComponent (component a) commits) first)
         (fun decision => publish client a dryRun decision commits).
Proof.
  intros Hres. rewrite GenerateVersion_split, Hres.
  unfold bind at 1, lift.
  destruct (newVersion a v _ first) as [decision|why]; simpl.
  - destruct (publish client a dryRun decision commits). reflexivity.
  - now rewrite app_nil_r.
Qed.

Lemma GenerateVersion_dry (client : Client) (a : VersioningAction)
    (t : list Event) (v : Version) (first : bool)
    (commits : list github.RepositoryCommit) :
  resolveInputs client a = (t, Ok (v, first, commits)) ->
  GenerateVersion client a true
  = (t, newVersion a v
          (convertAndFilterCommitsForComponent (component a) commits) first).
Proof.
  intros Hres. rewrite (GenerateVersion_resolved _ _ _ _ _ _ _ Hres).
  destruct (newVersion a v _ first) as [[w|]|why]; simpl;
    now rewrite ?app_nil_r.
Qed.

Lemma GenerateVersion_unresolved (client : Client) (a : VersioningAction)
    (t : list Event) (why : PanicReason) :
  resolveInputs client a = (t, Panic why) ->
  forall dryRun, GenerateVersion client a dryRun = (t, Panic why).
Proof. intros Hres dryRun. now rewrite GenerateVersion_split, Hres. Qed.

(** What the publishing step returns is the decision it was given. *)
Lemma publish_returns (client : Client) (a : VersioningAction) (t : list Event)
    (decision : outcome (option Version)) (commits : list github.RepositoryCommit)
    (r : option Version) :
  snd (bind (t, decision) (fun d => publish client a false d commits)) = Ok r ->
  snd (t, decision) = Ok r.
Proof.
  destruct decision as [[w|]|why]; simpl; try tauto.
  unfold createGitHubRelease.
  destruct (generateReleaseNotes a commits) as [notes|why]; simpl; [|discriminate].
  match goal with |- context [CreateRelease client ?release] =>
    destruct (CreateRelease client release) end; simpl; [tauto | discriminate].
Qed.

(** ** No change *)

(** C2. When the version is not a first creation and no record of the
    component is breaking, a feature or a fix, [newVersion] returns nil,
    and [GenerateVersion] returns nil having made only the calls that
    fetch its inputs: no release is requested. *)
Theorem no_change_no_release {laws : SemverLaws sv} (client : Client)
    (a : VersioningAction) (dryRun : bool) (t : list Event) (v : Version)
    (commits : list github.RepositoryCommit) :
  resolveInputs client a = (t, Ok (v, false, commits)) ->
  (forall c, In c (convertAndFilterCommitsForComponent (component a) commits) ->
     IsBreakingChange c = false /\ IsFeat c = false /\ IsFix c = false) ->
  newVersion a v (convertAndFilterCommitsForComponent (component a) commits) false
    = Ok None
  /\ GenerateVersion client a dryRun = (t, Ok None)
  /\ noReleaseRequested t.
Proof.
  intros Hres Hnone.
  pose proof (newVersion_no_change a v _ Hnone) as Hnil.
  split; [exact Hnil|]. split.
  - rewrite (GenerateVersion_resolved _ _ _ _ _ _ _ Hres), Hnil. simpl.
    now rewrite app_nil_r.
  - apply quiet_noReleaseRequested.
    pose proof (quiet_resolveInputs client a) as Hq. now rewrite Hres in Hq.
Qed.

(** ** Dry runs *)

(** C10. A dry run requests no release (release notes are built only
    on the way to that request). Both kinds of run fetch the same
    inputs and compute the same decision with [newVersion]; the dry run
    returns that decision as it is, the other run goes on to publish
    it, so whatever the other run returns the dry run returns too. *)
Theorem dry_run_requests_nothing (client : Client) (a : VersioningAction) :
  noReleaseRequested (fst (GenerateVersion client a true))
  /\ (forall t why,
        resolveInputs client a = (t, Panic why) ->
        GenerateVersion client a true = (t, Panic why)
        /\ GenerateVersion client a false = (t, Panic why))
  /\ (forall t v first commits,
        resolveInputs client a = (t, Ok (v, first, commits)) ->
        let decision :=
          newVersion a v
            (convertAndFilterCommitsForComponent (component a) commits) first in
        GenerateVersion client a true = (t, decision)
        /\ GenerateVersion client a false
           = bind (t, decision) (fun d => publish client a false d commits))
  /\ (forall r,
        snd (GenerateVersion client a false) = Ok r ->
        snd (GenerateVersion client a true) = Ok r).
Proof.
  pose proof (quiet_resolveInputs client a) as Hq.
  destruct (resolveInputs client a) as [t [[[v first] commits]|why]] eqn:Hres.
  - pose proof (GenerateVersion_dry _ _ _ _ _ _ Hres) as Hdry.
    pose proof (GenerateVersion_resolved _ _ false _ _ _ _ Hres) as Hwet.
    split; [|split; [|split]].
    + apply quiet_noReleaseRequested. now rewrite Hdry.
    + intros t' why' Heq. discriminate Heq.
    + intros t' v' first' commits' Heq. injection Heq as <- <- <- <-.
      split; [exact Hdry | exact Hwet].
    + intros r. rewrite Hdry, Hwet. apply publish_returns.
  - pose proof (GenerateVersion_unresolved _ _ _ _ Hres) as Hgv.
    split; [|split; [|split]].
    + apply quiet_noReleaseRequested. now rewrite Hgv.
    + intros t' why' Heq. injection Heq as <- <-. split; apply Hgv.
    + intros t' v' first' commits' Heq. discriminate Heq.
    + intros r. now rewrite !Hgv.
Qed.

(** *** Inverting a run *)

Lemma bind_inv_Ok {A B} (m : M A) (k : A -> M B) (t : list Event) (y : B) :
  bind m k = (t, Ok y) ->
  exists t1 x t2, m = (t1, Ok x) /\ k x = (t2, Ok y) /\ t = (t1 ++ t2)%list.
Proof.
  destruct m as [t1 [x|why]]; simpl; [|discriminate].
  destruct (k x) as [t2 r] eqn:Hk. intros [= <- ->].
  now exists t1, x, t2.
Qed.

Lemma In_bind {A B} (m : M A) (k : A -> M B) (e : Event) :
  In e (fst (bind m k)) ->
  In e (fst m) \/ exists x, snd m = Ok x /\ In e (fst (k x)).
Proof.
  destruct m as [t [x|why]]; simpl; [|now left].
  destruct (k x) as [t' r] eqn:Hk. simpl. rewrite in_app_iff.
  intros [Hin|Hin]; [now left|]. right. exists x. now rewrite Hk.
Qed.

Lemma call_inv_Ok {A} (e : Event) (answer : option A) (t : list Event) (x : A) :
  call e answer = (t, Ok x) -> answer = Some x /\ t = [e].
Proof. unfold call. destruct answer; simpl; intros [= <- <-]; now split. Qed.

Lemma fetchPages_events {A} (request : nat -> Event) (pages : list (option (list A)))
    (page : nat) (existing : list A) (e : Event) :
  In e (fst (fetchPages request pages page existing)) -> exists q, e = request q.
Proof.
  revert page existing.
  induction pages as [|answer later IH]; intros page existing; cbn [fetchPages].
  - simpl. intros [<-|[]]. now exists page.
  - intros Hin. apply In_bind in Hin. destruct Hin as [Hin|(items & _ & Hin)].
    + simpl in Hin. destruct Hin as [<-|[]]. now exists page.
    + destruct (List.length items =? 0)%nat; [destruct Hin | now apply IH in Hin].
Qed.

Lemma fetchPages_first {A} (request : nat -> Event) (pages : list (option (list A)))
    (page : nat) (existing : list A) :
  In (request page) (fst (fetchPages request pages page existing)).
Proof.
  destruct pages as [|[items|] later]; cbn [fetchPages]; simpl.
  - now left.
  - destruct (List.length items =? 0)%nat; simpl; [now left|].
    destruct (fetchPages request later (S page) (existing ++ items)). now left.
  - now left.
Qed.

Lemma getPreviousChangeTime_Ok (client : Client)
    (existing : list github.RepositoryRelease) (prev : option Time) :
  snd (getPreviousChangeTime client existing) = Ok prev ->
  match existing with
  | [] => prev = None
  | latest :: _ =>
      exists tp, GetCommit client (github.TargetCommitish latest) = Some tp
                 /\ prev = Some tp
  end.
Proof.
  destruct existing as [|latest others]; simpl.
  - now intros [= <-].
  - destruct (GetCommit client (github.TargetCommitish latest)) as [tp|]; simpl;
      [|discriminate].
    intros [= <-]. now exists tp.
Qed.

Lemma resolveInputs_Ok (client : Client) (a : VersioningAction) (t : list Event)
    (v : Version) (first : bool) (commits : list github.RepositoryCommit) :
  resolveInputs client a = (t, Ok (v, first, commits)) ->
  exists t0 all t1 prev tc t2,
    getAllReleases client = (t0, Ok all)
    /\ existingVersionOrNew (component a)
         (filterAndSortReleasesForComponent (component a) all) (initialVersion a)
       = Ok (v, first)
    /\ getPreviousChangeTime client
         (filterAndSortReleasesForComponent (component a) all) = (t1, Ok prev)
    /\ GetCommit client (revision a) = Some tc
    /\ getNewCommits client prev (Add tc Millisecond) (branch a) = (t2, Ok commits)
    /\ t = (t0 ++ t1 ++ GetCommitCall (revision a) :: t2)%list.
Proof.
  unfold resolveInputs. intros Hrun.
  apply bind_inv_Ok in Hrun. destruct Hrun as (t0 & all & r1 & Hall & Hrun & ->).
  apply bind_inv_Ok in Hrun.
  destruct Hrun as (l & [v' first'] & r2 & Hexisting & Hrun & ->).
  apply bind_inv_Ok in Hrun. destruct Hrun as (t1 & prev & r3 & Hprev & Hrun & ->).
  apply bind_inv_Ok in Hrun. destruct Hrun as (c & tc & r4 & Hcur & Hrun & ->).
  apply bind_inv_Ok in Hrun. destruct Hrun as (t2 & nc & r5 & Hnew & Hret & ->).
  unfold ret in Hret. injection Hret as <- -> -> ->.
  apply call_inv_Ok in Hcur. destruct Hcur as [Hcur ->].
  unfold lift in Hexisting. injection Hexisting as <- Hexisting.
  exists t0, all, t1, prev, tc, t2. repeat split; try assumption.
  simpl. now rewrite app_nil_r.
Qed.

Lemma publish_events (client : Client) (a : VersioningAction) (dryRun : bool)
    (decision : option Version) (commits : list github.RepositoryCommit) (e : Event) :
  In e (fst (publish client a dryRun decision commits)) -> isCreateRelease e = true.
Proof.
  unfold publish. destruct decision as [w|]; [|intros []].
  destruct dryRun; [intros []|].
  intros Hin. apply In_bind in Hin. destruct Hin as [Hin|(? & _ & [])].
  unfold createGitHubRelease in Hin.
  apply In_bind in Hin. destruct Hin as [[]|(notes & _ & [<-|[]])].
  reflexivity.
Qed.

(** *** The latest release of a component *)

Lemma filterAndSort_permutation {laws : GoTextLaws text} (component : string)
    (releases : list github.RepositoryRelease) :
  Permutation (filterAndSortReleasesForComponent component releases)
              (filter (releaseMatches component) releases).
Proof. unfold filterAndSortReleasesForComponent. apply SortSlice_permutation. Qed.

Lemma latest_release {laws : GoTextLaws text} (component : string)
    (releases : list github.RepositoryRelease) :
  match filterAndSortReleasesForComponent component releases with
  | [] => forall r, In r releases -> releaseMatches component r = false
  | _ :: _ => True
  end
  /\ forall latest others,
    filterAndSortReleasesForComponent component releases = latest :: others ->
    In latest releases
    /\ releaseMatches component latest = true
    /\ (forall r, In r releases -> releaseMatches component r = true ->
          (Unix (github.PublishedAt r) <= Unix (github.PublishedAt latest))%Z).
Proof.
  pose proof (filterAndSort_permutation component releases) as Hperm.
  split.
  - destruct (filterAndSortReleasesForComponent component releases) eqn:Hsorted;
      [|exact I].
    intros r Hin. destruct (releaseMatches component r) eqn:Hm; [|reflexivity].
    apply Permutation_nil in Hperm.
    assert (Hr : In r (filter (releaseMatches component) releases))
      by (apply filter_In; now split).
    rewrite Hperm in Hr. destruct Hr.
  - intros latest others Hsorted. rewrite Hsorted in Hperm.
    assert (Hl : In latest (filter (releaseMatches component) releases))
      by (apply (Permutation_in _ Hperm); now left).
    apply filter_In in Hl. destruct Hl as [Hin Hm].
    split; [exact Hin|]. split; [exact Hm|].
    intros r Hr Hrm.
    assert (Hr' : In r (latest :: others)).
    { apply (Permutation_in _ (Permutation_sym Hperm)). apply filter_In. now split. }
    destruct Hr' as [<-|Hr']; [lia|].
    unfold filterAndSortReleasesForComponent in Hsorted.
    apply (SortSlice_descending _ (fun x => Unix (github.PublishedAt x)) _ _ _
             (fun _ _ => eq_refl) Hsorted r Hr').
Qed.

(** ** The commit window *)

(** C6. Every request for commits that [GenerateVersion] makes is for
    the current branch and the window whose upper bound is the
    committer date of the current revision plus one millisecond and
    whose lower bound is the start of the Unix epoch when no release
    of the component exists, and otherwise the committer date of the
    target commit of the latest such release plus one second; and a
    run whose inputs are fetched does make such a request. *)
Theorem commit_window {laws : GoTextLaws text}
    (client : Client) (a : VersioningAction) (dryRun : bool) :
  (forall sha since until page,
     In (ListCommitsCall sha since until page) (fst (GenerateVersion client a dryRun)) ->
     exists t0 all tc,
       getAllReleases client = (t0, Ok all)
       /\ GetCommit client (revision a) = Some tc
       /\ sha = branch a
       /\ until = (tc + 1000000)%Z
       /\ match filterAndSortReleasesForComponent (component a) all with
          | [] =>
              (forall r, In r all -> releaseMatches (component a) r = false)
              /\ since = 0%Z
          | latest :: _ =>
              In latest all
              /\ releaseMatches (component a) latest = true
              /\ (forall r, In r all -> releaseMatches (component a) r = true ->
                    (Unix (github.PublishedAt r) <= Unix (github.PublishedAt latest))%Z)
              /\ exists tp,
                   GetCommit client (github.TargetCommitish latest) = Some tp
                   /\ since = (tp + 1000000000)%Z
          end)
  /\ (forall t v first commits,
        resolveInputs client a = (t, Ok (v, first, commits)) ->
        exists since until,
          In (ListCommitsCall (branch a) since until 1)
             (fst (GenerateVersion client a dryRun))).
Proof.
  split.
  - intros sha since until page Hin.
    rewrite GenerateVersion_split in Hin. apply In_bind in Hin.
    destruct Hin as [Hin|([[v first] commits] & _ & Hin)].
    + unfold resolveInputs in Hin.
      apply In_bind in Hin. destruct Hin as [Hin|(all & Hall & Hin)].
      { apply fetchPages_events in Hin. destruct Hin as (q & Hq). discriminate. }
      apply In_bind in Hin. destruct Hin as [[]|([v first] & _ & Hin)].
      apply In_bind in Hin. destruct Hin as [Hin|(prev & Hprev & Hin)].
      { unfold getPreviousChangeTime in Hin.
        destruct (filterAndSortReleasesForComponent (component a) all);
          [destruct Hin|].
        apply In_bind in Hin. destruct Hin as [[Hin|[]]|(? & _ & [])].
        discriminate. }
      apply In_bind in Hin. destruct Hin as [[Hin|[]]|(tc & Hcur & Hin)];
        [discriminate|].
      apply In_bind in Hin. destruct Hin as [Hin|(? & _ & [])].
      unfold getNewCommits in Hin. apply fetchPages_events in Hin.
      destruct Hin as (q & [= -> -> -> ->]).
      destruct (getAllReleases client) as [t0 r] eqn:Hreleases.
      simpl in Hall. subst r.
      exists t0, all, tc. split; [reflexivity|]. split.
      { unfold getCurrentChangeTime, call in Hcur. simpl in Hcur.
        destruct (GetCommit client (revision a)); simpl in Hcur; congruence. }
      split; [reflexivity|]. split; [reflexivity|].
      apply getPreviousChangeTime_Ok in Hprev.
      pose proof (latest_release (component a) all) as Hlatest.
      destruct (filterAndSortReleasesForComponent (component a) all) as [|latest others].
      * subst prev. split; [apply Hlatest | reflexivity].
      * destruct Hprev as (tp & Htp & ->).
        destruct (proj2 Hlatest latest others eq_refl) as (Hin & Hm & Hmax).
        repeat split; try assumption. now exists tp.
    + apply In_bind in Hin. destruct Hin as [[]|(decision & _ & Hin)].
      apply publish_events in Hin. discriminate.
  - intros t v first commits Hres.
    destruct (resolveInputs_Ok _ _ _ _ _ _ Hres)
      as (t0 & all & t1 & prev & tc & t2 & _ & _ & _ & _ & Hnew & ->).
    exists (windowStart prev), (Add tc Millisecond).
    rewrite (GenerateVersion_resolved _ _ dryRun _ _ _ _ Hres).
    match goal with |- In ?e (fst (bind (?t, ?o) ?k)) =>
      assert (Hin : In e t) end.
    { rewrite !in_app_iff. do 2 right. right.
      change t2 with (fst (t2, Ok commits : outcome (list github.RepositoryCommit))).
      rewrite <- Hnew. unfold getNewCommits. apply fetchPages_first. }
    destruct (newVersion a v _ first) as [decision|why]; simpl.
    + destruct (publish client a dryRun decision commits). simpl.
      rewrite in_app_iff. now left.
    + exact Hin.
Qed.

(** ** First creation *)

Lemma filterAndSort_none {laws : GoTextLaws text} (component : string)
    (releases : list github.RepositoryRelease) :
  (forall r, In r releases -> releaseMatches component r = false) ->
  filterAndSortReleasesForComponent component releases = [].
Proof.
  intros Hnone. unfold filterAndSortReleasesForComponent.
  assert (Hf : filter (fun release =>
                 HasPrefix (ToLower (github.TagName release))
                           (getComponentPrefix component)) releases = []).
  { induction releases as [|r rest IH]; [reflexivity|]. simpl.
    pose proof (Hnone r (or_introl eq_refl)) as Hr. unfold releaseMatches in Hr.
    rewrite Hr. apply IH. intros r' Hr'. apply Hnone. now right. }
  rewrite Hf. apply Permutation_nil. symmetry. apply SortSlice_permutation.
Qed.

(** C3. With no release of the component, [existingVersionOrNew] parses
    the initial version and reports a first creation; [newVersion]
    then never looks at the commit records (any two record lists
    give the same result) and on the default branch returns the
    version it was given. For a whole run: the version it starts from is
    the parsed initial version, the decision is that version passed
    through the branch test, whatever commits the window holds: a dry
    run returns it, a publishing run that returns returns it, and on the
    default branch it is the initial version itself. *)
Theorem first_creation_ignores_commits {laws : GoTextLaws text}
    (client : Client) (a : VersioningAction) :
  existingVersionOrNew (component a) [] (initialVersion a)
    = obind (MustParse (initialVersion a)) (fun v => Ok (v, true))
  /\ (forall v cs cs', newVersion a v cs true = newVersion a v cs' true)
  /\ (forall v cs, newVersion a v cs true = markPrerelease a v)
  /\ (forall v cs, branch a = defaultBranch a -> newVersion a v cs true = Ok (Some v))
  /\ (forall t0 all t v first commits,
        getAllReleases client = (t0, Ok all) ->
        (forall r, In r all -> releaseMatches (component a) r = false) ->
        resolveInputs client a = (t, Ok (v, first, commits)) ->
        first = true
        /\ NewVersion (initialVersion a) = Some v
        /\ newVersion a v
             (convertAndFilterCommitsForComponent (component a) commits) first
           = markPrerelease a v
        /\ GenerateVersion client a true = (t, markPrerelease a v)
        /\ (forall dryRun r,
              snd (GenerateVersion client a dryRun) = Ok r ->
              markPrerelease a v = Ok r)
        /\ (branch a = defaultBranch a ->
            GenerateVersion client a true = (t, Ok (Some v)))).
Proof.
  assert (Hfirst : forall v cs, newVersion a v cs true = markPrerelease a v)
    by reflexivity.
  assert (Hdefault : forall v, branch a = defaultBranch a ->
                               markPrerelease a v = Ok (Some v)).
  { intros v Heq. unfold markPrerelease. apply String.eqb_eq in Heq.
    now rewrite Heq. }
  split; [reflexivity|]. split; [intros; now rewrite !Hfirst|].
  split; [exact Hfirst|]. split; [intros; rewrite Hfirst; now apply Hdefault|].
  intros t0 all t v first commits Hall Hnone Hres.
  pose proof (GenerateVersion_dry _ _ _ _ _ _ Hres) as Hdry.
  destruct (resolveInputs_Ok _ _ _ _ _ _ Hres)
    as (t0' & all' & t1 & prev & tc & t2 & Hall' & Hexisting & _).
  rewrite Hall in Hall'. injection Hall' as <- <-.
  rewrite (filterAndSort_none _ _ Hnone) in Hexisting.
  unfold existingVersionOrNew, MustParse in Hexisting.
  destruct (NewVersion (initialVersion a)) as [v0|] eqn:Hparse; simpl in Hexisting;
    [|discriminate].
  injection Hexisting as <- <-.
  pose proof (GenerateVersion_resolved _ _ false _ _ _ _ Hres) as Hwet.
  rewrite Hfirst in Hdry, Hwet.
  split; [reflexivity|]. split; [reflexivity|]. split; [reflexivity|].
  split; [exact Hdry|]. split.
  - intros [|] r Hr.
    + now rewrite Hdry in Hr.
    + rewrite Hwet in Hr. now apply publish_returns in Hr.
  - intros Heq. now rewrite Hdry, Hdefault.
Qed.

(** ** Malformed versions *)

(** C7, as amended. Once the releases are listed: if none is of the
    component and the initial version does not parse, or if the latest
    one of the component has a tag that does not parse once the
    component prefix is stripped, the run panics there, with no version
    and no release requested. *)
Theorem malformed_version_aborts (client : Client) (a : VersioningAction)
    (dryRun : bool) (t : list Event) (all : list github.RepositoryRelease) :
  getAllReleases client = (t, Ok all) ->
  (filterAndSortReleasesForComponent (component a) all = [] ->
     NewVersion (initialVersion a) = None ->
     GenerateVersion client a dryRun = (t, Panic ErrInvalidSemVer))
  /\ (forall latest others,
        filterAndSortReleasesForComponent (component a) all = latest :: others ->
        NewVersion (TrimPrefix (github.TagName latest)
                               (getComponentPrefix (component a))) = None ->
        GenerateVersion client a dryRun = (t, Panic ErrInvalidSemVer))
  /\ noReleaseRequested t.
Proof.
  intros Hall. repeat split.
  - intros Hnone Hparse. unfold GenerateVersion. rewrite Hall.
    unfold bind at 1. rewrite Hnone. unfold existingVersionOrNew, MustParse.
    rewrite Hparse. simpl. now rewrite app_nil_r.
  - intros latest others Hsome Hparse. unfold GenerateVersion. rewrite Hall.
    unfold bind at 1. rewrite Hsome. unfold existingVersionOrNew, MustParse.
    rewrite Hparse. simpl. now rewrite app_nil_r.
  - apply quiet_noReleaseRequested.
    change t with (fst (t, Ok all : outcome (list github.RepositoryRelease))).
    rewrite <- Hall. now apply quiet_fetchPages.
Qed.

(** ** Changelog entries *)

Lemma formatCommitChangelogEntry_sha (commit : github.RepositoryCommit)
    (record : ConventionalCommit) :
  (7 <= String.length (github.SHA commit))%nat ->
  formatCommitChangelogEntry commit record
  = Ok ("* [`" ++ substring 0 7 (github.SHA commit) ++ "`](" ++ github.HTMLURL commit
          ++ ") " ++ Description record ++ " (@" ++ github.Login commit ++ ")" ++ nl).
Proof.
  intros Hlen. unfold formatCommitChangelogEntry.
  destruct (github.SHA commit) as [|c sha] eqn:Hsha; [simpl in Hlen; lia|].
  simpl negb. cbv iota. unfold sliceTo.
  apply Nat.leb_le in Hlen. now rewrite Hlen.
Qed.

Lemma formatCommitChangelogEntry_no_sha (commit : github.RepositoryCommit)
    (record : ConventionalCommit) :
  github.SHA commit = "" ->
  formatCommitChangelogEntry commit record
  = Ok ("* [" ++ github.HTMLURL commit ++ "](" ++ Description record
          ++ ") (@" ++ github.Login commit ++ ")" ++ nl).
Proof. intros Hsha. unfold formatCommitChangelogEntry. now rewrite Hsha. Qed.

End Properties.

(** * The reference instances *)


Section RefSort.
Variable key : github.RepositoryRelease -> Z.
Variable less : github.RepositoryRelease -> github.RepositoryRelease -> bool.
Hypothesis less_key : forall ri rj, less ri rj = (key rj <? key ri)%Z.

Lemma insertBy_permutation (x : github.RepositoryRelease) (l : list github.RepositoryRelease) :
  Permutation (RefText.insertBy less x l) (x :: l).
Proof.
  induction l as [|y l IH]; simpl; [reflexivity|].
  destruct (less y x); [|reflexivity].
  rewrite IH. apply perm_swap.
Qed.

Lemma insertBy_sorted (x : github.RepositoryRelease) (l : list github.RepositoryRelease) :
  StronglySorted (RefText.notBefore key) l -> StronglySorted (RefText.notBefore key) (RefText.insertBy less x l).
Proof.
  induction l as [|y l IH]; intros Hsorted; simpl.
  - constructor; constructor.
  - inversion Hsorted as [|? ? Htail Hhead]; subst.
    destruct (less y x) eqn:Hless; rewrite less_key in Hless.
    + constructor; [now apply IH|].
      apply Forall_forall. intros z Hz.
      apply (Permutation_in _ (insertBy_permutation x l)) in Hz.
      destruct Hz as [<-|Hz]; [unfold RefText.notBefore; lia|].
      now apply (proj1 (Forall_forall _ _) Hhead).
    + constructor; [exact Hsorted|].
      constructor; [unfold RefText.notBefore; lia|].
      apply Forall_forall. intros z Hz.
      pose proof (proj1 (Forall_forall _ _) Hhead z Hz) as Hzy.
      unfold RefText.notBefore in *. lia.
Qed.

Lemma sortBy_sorted (l : list github.RepositoryRelease) :
  StronglySorted (RefText.notBefore key) (RefText.sortBy less l).
Proof.
  induction l as [|x l IH]; simpl; [constructor | now apply insertBy_sorted].
Qed.

Lemma sortBy_head (l others : list github.RepositoryRelease)
    (first : github.RepositoryRelease) :
  RefText.sortBy less l = first :: others ->
  forall r, In r others -> (key r <= key first)%Z.
Proof.
  intros Hsort r Hr. pose proof (sortBy_sorted l) as Hsorted.
  rewrite Hsort in Hsorted. inversion Hsorted as [|? ? _ Hhead]; subst.
  now apply (proj1 (Forall_forall _ _) Hhead).
Qed.

End RefSort.

Lemma sortBy_permutation (less : github.RepositoryRelease -> github.RepositoryRelease -> bool)
    (l : list github.RepositoryRelease) :
  Permutation (RefText.sortBy less l) l.
Proof.
  induction l as [|x l IH]; simpl; [reflexivity|].
  rewrite insertBy_permutation. now constructor.
Qed.

Lemma RefText_laws : GoTextLaws RefText.text.
Proof.
  constructor.
  - reflexivity.
  - exact sortBy_permutation.
  - intros less key l first others Hless. now apply sortBy_head.
Qed.

Lemma length_append (s t : string) :
  String.length (s ++ t) = (String.length s + String.length t)%nat.
Proof. induction s as [|c s IH]; simpl; [reflexivity | now rewrite IH]. Qed.

Lemma append_dot_not_empty (p x y : string) : (p ++ x ++ "." ++ y)%string <> "".
Proof.
  intros H. apply (f_equal String.length) in H.
  rewrite !length_append in H. simpl in H. lia.
Qed.

Lemma RefSemver_eqb_eq (v w : RefSemver.version) : RefSemver.eqb v w = true <-> v = w.
Proof.
  destruct v, w. unfold RefSemver.eqb. simpl.
  rewrite !andb_true_iff, !Z.eqb_eq, !String.eqb_eq. split.
  - intros [[[[[-> ->] ->] ->] ->] ->]. reflexivity.
  - intros [= -> -> -> -> -> ->]. tauto.
Qed.

Lemma RefSemver_laws : SemverLaws RefSemver.semver.
Proof.
  constructor; simpl.
  - exact RefSemver_eqb_eq.
  - intros v H. apply (f_equal RefSemver.original) in H. simpl in H.
    now apply append_dot_not_empty in H.
  - intros v H. apply (f_equal RefSemver.original) in H. simpl in H.
    now apply append_dot_not_empty in H.
  - intros v H. apply (f_equal RefSemver.original) in H. simpl in H.
    now apply append_dot_not_empty in H.
  - intros v label v'. unfold RefSemver.setPrerelease.
    destruct (negb (label =? "")%string && negb (RefSemver.validIdentifiers label));
      [discriminate|].
    now intros [= <-].
Qed.

(** * The theorems on concrete runs *)

Section Runs.
#[local] Existing Instance RefText.text.
#[local] Existing Instance RefSemver.semver.
#[local] Existing Instance RefCommits.commits.

Lemma bump_priority_witness :
  newVersion Sample.main Sample.v123
    [Sample.fixR; Sample.breakingR; Sample.featR] false
    = Ok (Some (Sample.version 2 0 0 "2.0.0"))
  /\ newVersion Sample.main Sample.v123
       [Sample.fixR; Sample.featR; Sample.choreR] false
     = Ok (Some (Sample.version 1 3 0 "1.3.0"))
  /\ newVersion Sample.main Sample.v123 [Sample.choreR; Sample.fixR] false
     = Ok (Some (Sample.version 1 2 4 "1.2.4"))
  /\ scanCommits [Sample.fixR; Sample.breakingR; Sample.featR] noFlags
     = {| breakingChangesFound := true; featureChangesFound := false;
          fixChangesFound := true |}.
Proof.
  split; [|split; [|split]].
  - destruct (bump_priority (cc := RefCommits.commits) (laws := RefSemver_laws) Sample.main Sample.v123
                [Sample.fixR; Sample.breakingR; Sample.featR])
      as (Hmajor & _ & _ & _ & Hdefault).
    rewrite Hmajor.
    + apply Hdefault. reflexivity.
    + exists Sample.breakingR. split; [simpl; tauto | reflexivity].
  - destruct (bump_priority (cc := RefCommits.commits) (laws := RefSemver_laws) Sample.main Sample.v123
                [Sample.fixR; Sample.featR; Sample.choreR])
      as (_ & Hminor & _ & _ & Hdefault).
    rewrite Hminor.
    + apply Hdefault. reflexivity.
    + intros c [<-|[<-|[<-|[]]]]; reflexivity.
    + exists Sample.featR. split; [simpl; tauto | reflexivity].
  - destruct (bump_priority (cc := RefCommits.commits) (laws := RefSemver_laws) Sample.main Sample.v123
                [Sample.choreR; Sample.fixR])
      as (_ & _ & Hpatch & _ & Hdefault).
    rewrite Hpatch.
    + apply Hdefault. reflexivity.
    + intros c [<-|[<-|[]]]; reflexivity.
    + intros c [<-|[<-|[]]]; reflexivity.
    + exists Sample.fixR. split; [simpl; tauto | reflexivity].
  - destruct (bump_priority (cc := RefCommits.commits) (laws := RefSemver_laws) Sample.main Sample.v123
                [Sample.fixR; Sample.breakingR; Sample.featR])
      as (_ & _ & _ & Hstop & _).
    apply (Hstop [Sample.fixR] Sample.breakingR [Sample.featR]).
    + reflexivity.
    + intros c [<-|[]]; reflexivity.
    + reflexivity.
Defined.

Lemma no_change_no_release_witness :
  resolveInputs (Sample.client Sample.fooReleases Sample.quietCommits) Sample.main
    = (Sample.fooTrace, Ok (Sample.v123, false, Sample.quietCommits))
  /\ GenerateVersion (Sample.client Sample.fooReleases Sample.quietCommits)
       Sample.main false
     = (Sample.fooTrace, Ok None)
  /\ noReleaseRequested Sample.fooTrace.
Proof.
  assert (Hres : resolveInputs (Sample.client Sample.fooReleases Sample.quietCommits)
                   Sample.main
                 = (Sample.fooTrace, Ok (Sample.v123, false, Sample.quietCommits)))
    by (vm_compute; reflexivity).
  split; [exact Hres|].
  apply (no_change_no_release (text := RefText.text) (cc := RefCommits.commits) (laws := RefSemver_laws) _ _ false _ _ _ Hres).
  intros c Hin. vm_compute in Hin. destruct Hin as [<-|[]]. now repeat split.
Defined.

Lemma first_creation_ignores_commits_witness :
  newVersion Sample.main Sample.v100 [Sample.breakingR] true
    = newVersion Sample.main Sample.v100 [] true
  /\ newVersion Sample.main Sample.v100 [Sample.breakingR] true
     = Ok (Some Sample.v100)
  /\ GenerateVersion (Sample.client Sample.barReleases Sample.fixCommits)
       Sample.main true
     = (Sample.firstTrace, Ok (Some Sample.v100)).
Proof.
  destruct (first_creation_ignores_commits (sv := RefSemver.semver) (cc := RefCommits.commits) (laws := RefText_laws)
              (Sample.client Sample.barReleases Sample.fixCommits) Sample.main)
    as (_ & Hsame & _ & Hdefault & Hrun).
  split; [apply Hsame|]. split; [now apply Hdefault|].
  destruct (Hrun [ListReleasesCall 1; ListReleasesCall 2] Sample.barReleases
              Sample.firstTrace Sample.v100 true Sample.fixCommits)
    as (_ & _ & _ & _ & _ & Hdry).
  - vm_compute. reflexivity.
  - intros r [<-|[]]. vm_compute. reflexivity.
  - vm_compute. reflexivity.
  - now apply Hdry.
Defined.

Lemma prerelease_label_witness :
  newVersion Sample.feature Sample.v123 [Sample.fixR] false
    = Ok (Some Sample.v124pre)
  /\ VersionPrerelease Sample.v124pre = substring 0 7 (revision Sample.feature)
  /\ newVersion Sample.main Sample.v123 [Sample.fixR] false
     = Ok (Some (Sample.version 1 2 4 "1.2.4"))
  /\ newVersion Sample.shortRevision Sample.v123 [Sample.fixR] false
     = Panic SliceOutOfRange.
Proof.
  assert (Hbase : baseVersion Sample.v123 [Sample.fixR] false
                  = Some (Sample.version 1 2 4 "1.2.4")) by reflexivity.
  assert (Hrun : newVersion Sample.feature Sample.v123 [Sample.fixR] false
                 = Ok (Some Sample.v124pre)).
  { destruct (prerelease_label (cc := RefCommits.commits) (laws := RefSemver_laws)
                Sample.feature _ _ _ _ Hbase) as (Hlabel & _).
    rewrite Hlabel.
    - reflexivity.
    - intros H. discriminate H.
    - simpl. lia. }
  split; [exact Hrun|]. split; [|split].
  - destruct (prerelease_label (cc := RefCommits.commits) (laws := RefSemver_laws)
                Sample.feature _ _ _ _ Hbase) as (_ & Hcarried & _).
    apply (Hcarried (fun H => ltac:(discriminate H)) _ Hrun).
  - destruct (prerelease_label (cc := RefCommits.commits) (laws := RefSemver_laws) Sample.main _ _ _ _ Hbase)
      as (_ & _ & Hdefault & _).
    now apply Hdefault.
  - destruct (prerelease_label (cc := RefCommits.commits) (laws := RefSemver_laws) Sample.shortRevision
                _ _ _ _ Hbase) as (_ & _ & _ & Hshort).
    apply Hshort.
    + intros H. discriminate H.
    + simpl. lia.
Defined.

(** The slice of the revision is taken under the branch test only: on
    the default branch [newVersion] returns the version with a revision
    of 3 bytes, for a bump and for a first creation. *)
Lemma short_revision_on_default_branch :
  (String.length (revision (Sample.action "main" "abc" "1.0.0")) < 7)%nat
  /\ newVersion (Sample.action "main" "abc" "1.0.0") Sample.v123 [Sample.fixR] false
     = Ok (Some (Sample.version 1 2 4 "1.2.4"))
  /\ newVersion (Sample.action "main" "abc" "1.0.0") Sample.v100 [] true
     = Ok (Some Sample.v100).
Proof. split; [simpl; lia | split; reflexivity]. Qed.

Lemma scope_filter_exact_witness :
  convertAndFilterCommitsForComponent "foo" Sample.mixedCaseCommits
    = [{| RefCommits.type := "fix"; RefCommits.scope := Some "Foo";
          RefCommits.description := "mend"; RefCommits.exclamation := false |}]
  /\ In {| RefCommits.type := "fix"; RefCommits.scope := Some "Foo";
           RefCommits.description := "mend"; RefCommits.exclamation := false |}
        (convertAndFilterCommitsForComponent "foo" Sample.mixedCaseCommits)
  /\ ~ In {| RefCommits.type := "chore"; RefCommits.scope := None;
             RefCommits.description := "tidy"; RefCommits.exclamation := false |}
          (convertAndFilterCommitsForComponent "foo" Sample.mixedCaseCommits).
Proof.
  destruct (scope_filter_exact (cc := RefCommits.commits) (laws := RefText_laws) "foo" Sample.mixedCaseCommits)
    as (Hfilter & _ & Habsent & Hfoo).
  split; [rewrite Hfilter; reflexivity|]. split.
  - apply Hfoo; [vm_compute; tauto | reflexivity].
  - apply Habsent. reflexivity.
Defined.

Lemma commit_window_witness :
  In (ListCommitsCall "main" 1700000001000000000%Z 1700000600001000000%Z 1)
     (fst (GenerateVersion (Sample.client Sample.fooReleases Sample.fixCommits)
             Sample.main false))
  /\ (exists since until,
        In (ListCommitsCall (branch Sample.main) since until 1)
           (fst (GenerateVersion (Sample.client Sample.fooReleases Sample.fixCommits)
                   Sample.main false)))
  /\ exists t0 all tc,
       getAllReleases (Sample.client Sample.fooReleases Sample.fixCommits)
         = (t0, Ok all)
       /\ GetCommit (Sample.client Sample.fooReleases Sample.fixCommits)
            (revision Sample.main) = Some tc
       /\ "main" = branch Sample.main
       /\ 1700000600001000000%Z = (tc + 1000000)%Z
       /\ match filterAndSortReleasesForComponent (component Sample.main) all with
          | [] =>
              (forall r, In r all -> releaseMatches (component Sample.main) r = false)
              /\ 1700000001000000000%Z = 0%Z
          | latest :: _ =>
              In latest all
              /\ releaseMatches (component Sample.main) latest = true
              /\ (forall r, In r all ->
                    releaseMatches (component Sample.main) r = true ->
                    (Unix (github.PublishedAt r) <= Unix (github.PublishedAt latest))%Z)
              /\ exists tp,
                   GetCommit (Sample.client Sample.fooReleases Sample.fixCommits)
                     (github.TargetCommitish latest) = Some tp
                   /\ 1700000001000000000%Z = (tp + 1000000000)%Z
          end.
Proof.
  assert (Hin : In (ListCommitsCall "main" 1700000001000000000%Z
                      1700000600001000000%Z 1)
                   (fst (GenerateVersion
                           (Sample.client Sample.fooReleases Sample.fixCommits)
                           Sample.main false))).
  { vm_compute. tauto. }
  destruct (commit_window (sv := RefSemver.semver) (cc := RefCommits.commits)
              (laws := RefText_laws)
              (Sample.client Sample.fooReleases Sample.fixCommits)
              Sample.main false) as [Hbounds Hasked].
  split; [exact Hin|]. split.
  - apply (Hasked Sample.fooTrace Sample.v123 false Sample.fixCommits).
    vm_compute. reflexivity.
  - exact (Hbounds _ _ _ _ Hin).
Defined.

(** C7, as first stated, fails: the initial version is malformed, a
    release of the component exists, and the run returns the version
    1.2.4 and requests its release; the initial version is parsed only
    when no release of the component exists. *)
Lemma malformed_initial_version_unused :
  NewVersion (initialVersion Sample.badInitial) = None
  /\ snd (GenerateVersion (Sample.client Sample.fooReleases Sample.fixCommits)
            Sample.badInitial false)
     = Ok (Some (Sample.version 1 2 4 "1.2.4"))
  /\ existsb isCreateRelease
       (fst (GenerateVersion (Sample.client Sample.fooReleases Sample.fixCommits)
               Sample.badInitial false)) = true.
Proof. split; [|split]; vm_compute; reflexivity. Qed.

Lemma malformed_version_aborts_witness :
  GenerateVersion (Sample.client Sample.barReleases Sample.fixCommits)
    Sample.badInitial false
    = ([ListReleasesCall 1; ListReleasesCall 2], Panic ErrInvalidSemVer)
  /\ GenerateVersion (Sample.client Sample.untaggedReleases Sample.fixCommits)
       Sample.main false
     = ([ListReleasesCall 1; ListReleasesCall 2], Panic ErrInvalidSemVer)
  /\ noReleaseRequested [ListReleasesCall 1; ListReleasesCall 2].
Proof.
  split; [|split].
  - destruct (malformed_version_aborts (text := RefText.text) (sv := RefSemver.semver)
                (cc := RefCommits.commits)
                (Sample.client Sample.barReleases Sample.fixCommits)
                Sample.badInitial false
                [ListReleasesCall 1; ListReleasesCall 2] Sample.barReleases)
      as (Hinitial & _ & _).
    + vm_compute. reflexivity.
    + apply Hinitial; vm_compute; reflexivity.
  - destruct (malformed_version_aborts (text := RefText.text) (sv := RefSemver.semver)
                (cc := RefCommits.commits)
                (Sample.client Sample.untaggedReleases Sample.fixCommits)
                Sample.main false
                [ListReleasesCall 1; ListReleasesCall 2] Sample.untaggedReleases)
      as (_ & Htag & _).
    + vm_compute. reflexivity.
    + apply (Htag (Sample.release "foo-latest" "1111111aaaaaaa"
                     1699999000000000000%Z) []); vm_compute; reflexivity.
  - destruct (malformed_version_aborts (text := RefText.text) (sv := RefSemver.semver)
                (cc := RefCommits.commits)
                (Sample.client Sample.barReleases Sample.fixCommits)
                Sample.badInitial false
                [ListReleasesCall 1; ListReleasesCall 2] Sample.barReleases)
      as (_ & _ & Hquiet).
    + vm_compute. reflexivity.
    + exact Hquiet.
Defined.

(** C9. For a commit without SHA the entry puts the description in the
    place of the link target: [* [url](description) (@author)], not
    [* [url] description (@author)]. *)
Theorem changelog_entry_without_sha :
  formatCommitChangelogEntry (Sample.commit "" "fix(foo): mend") Sample.fixR
    = Ok ("* [https://example.test/c/](change) (@bob)" ++ nl)
  /\ formatCommitChangelogEntry (Sample.commit "" "fix(foo): mend") Sample.fixR
     <> Ok ("* [https://example.test/c/] change (@bob)" ++ nl)
  /\ formatCommitChangelogEntry (Sample.commit "" "fix(foo): mend") Sample.fixR
     <> Ok "* [https://example.test/c/] change (@bob)".
Proof. split; [|split]; vm_compute; [reflexivity | discriminate | discriminate]. Qed.

Lemma dry_run_requests_nothing_witness :
  noReleaseRequested
    (fst (GenerateVersion (Sample.client Sample.fooReleases Sample.fixCommits)
            Sample.main true))
  /\ GenerateVersion (Sample.client Sample.fooReleases Sample.fixCommits)
       Sample.main true
     = (Sample.fooTrace, Ok (Some (Sample.version 1 2 4 "1.2.4")))
  /\ snd (GenerateVersion (Sample.client Sample.fooReleases Sample.fixCommits)
            Sample.main false)
     = Ok (Some (Sample.version 1 2 4 "1.2.4"))
  /\ snd (GenerateVersion (Sample.client Sample.fooReleases Sample.fixCommits)
            Sample.main true)
     = Ok (Some (Sample.version 1 2 4 "1.2.4"))
  /\ GenerateVersion (Sample.client Sample.fooReleases Sample.fixCommits)
       Sample.unknownRevision true
     = ([ListReleasesCall 1; ListReleasesCall 2; GetCommitCall "1111111aaaaaaa";
         GetCommitCall "fffffff0000000"], Panic ApiError).
Proof.
  destruct (dry_run_requests_nothing (text := RefText.text) (sv := RefSemver.semver)
              (cc := RefCommits.commits)
              (Sample.client Sample.fooReleases Sample.fixCommits) Sample.main)
    as (Hquiet & _ & Hsame & Hreturned).
  assert (Hwet : snd (GenerateVersion
                        (Sample.client Sample.fooReleases Sample.fixCommits)
                        Sample.main false)
                 = Ok (Some (Sample.version 1 2 4 "1.2.4")))
    by (vm_compute; reflexivity).
  split; [exact Hquiet|]. split; [|split; [exact Hwet|split]].
  - destruct (Hsame Sample.fooTrace Sample.v123 false Sample.fixCommits) as [Hdry _].
    + vm_compute. reflexivity.
    + rewrite Hdry. vm_compute. reflexivity.
  - now apply Hreturned.
  - destruct (dry_run_requests_nothing (text := RefText.text) (sv := RefSemver.semver)
                (cc := RefCommits.commits)
                (Sample.client Sample.fooReleases Sample.fixCommits)
                Sample.unknownRevision) as (_ & Hpanic & _).
    apply Hpanic. vm_compute. reflexivity.
Defined.

(** The release notes are built only by a run that publishes: with a
    commit whose SHA has 4 bytes the entry cannot be formatted and the
    publishing run panics, while the dry run returns the version. *)
Example dry_run_builds_no_notes :
  GenerateVersion
    (Sample.client Sample.fooReleases [Sample.commit "0123" "fix(foo): mend"])
    Sample.main false
  = (Sample.fooTrace, Panic SliceOutOfRange)
  /\ GenerateVersion
       (Sample.client Sample.fooReleases [Sample.commit "0123" "fix(foo): mend"])
       Sample.main true
     = (Sample.fooTrace, Ok (Some (Sample.version 1 2 4 "1.2.4"))).
Proof. split; vm_compute; reflexivity. Qed.

(** A release whose tag has the component in another case passes the
    release filter, but its prefix is not stripped, so its tag does
    not parse. *)
Example release_tag_in_upper_case :
  GenerateVersion
    (Sample.client [Sample.release "Foo-1.2.3" "1111111aaaaaaa" 1699999000000000000%Z]
       Sample.fixCommits)
    Sample.main false
  = ([ListReleasesCall 1; ListReleasesCall 2], Panic ErrInvalidSemVer).
Proof. vm_compute. reflexivity. Qed.

(** With a SHA of at least 7 bytes the entry is
    [* [`shortSHA`](url) description (@author)]; a SHA of 1 to 6 bytes
    panics. *)
Example changelog_entry_with_sha :
  formatCommitChangelogEntry (Sample.commit "0123456789abcdef" "fix(foo): mend")
    Sample.fixR
    = Ok ("* [`0123456`](https://example.test/c/0123456789abcdef) change (@bob)" ++ nl)
  /\ formatCommitChangelogEntry (Sample.commit "0123" "fix(foo): mend") Sample.fixR
     = Panic SliceOutOfRange.
Proof. split; vm_compute; reflexivity. Qed.

End Runs.

(** * Further properties of the package *)

(** ** Paging *)

Lemma fetchPages_leading {A} (request : nat -> Event) (full : list (list A))
    (rest : list (option (list A))) (page : nat) (existing : list A) :
  Forall (fun items => items <> []) full ->
  fetchPages request (map Some full ++ rest)%list page existing
  = ((map request (seq page (List.length full))
        ++ fst (fetchPages request rest (page + List.length full)
                  (existing ++ concat full)))%list,
     snd (fetchPages request rest (page + List.length full) (existing ++ concat full)%list)).
Proof.
  intros Hfull. revert page existing.
  induction Hfull as [|items full Hitems _ IH]; intros page existing.
  - simpl. rewrite Nat.add_0_r, app_nil_r.
    now destruct (fetchPages request rest page existing).
  - cbn [map app fetchPages]. unfold call, orPanic, bind.
    destruct items as [|item items]; [now elim Hitems|].
    cbn [List.length Nat.eqb]. rewrite IH.
    cbn [List.length seq map concat app fst snd].
    rewrite <- app_assoc. cbn [app].
    replace (S page + List.length full)%nat with (page + S (List.length full))%nat by lia.
    reflexivity.
Qed.

Lemma fetchPages_stop {A} (request : nat -> Event) (rest : list (option (list A)))
    (page : nat) (existing : list A) :
  rest = [] \/ (exists later, rest = Some [] :: later) ->
  fetchPages request rest page existing = ([request page], Ok existing).
Proof.
  intros [->|(later & ->)]; cbn [fetchPages]; unfold call, orPanic, bind, ret; simpl;
    now rewrite app_nil_r.
Qed.

Lemma fetchPages_fail {A} (request : nat -> Event) (later : list (option (list A)))
    (page : nat) (existing : list A) :
  fetchPages request (None :: later) page existing = ([request page], Panic ApiError).
Proof. reflexivity. Qed.

(** Every list of pages is a run of non-empty pages followed by nothing,
    by an empty page or by a failure. *)
Lemma pages_split {A} (pages : list (option (list A))) :
  exists full rest,
    pages = (map Some full ++ rest)%list
    /\ Forall (fun items => items <> []) full
    /\ (rest = [] \/ (exists later, rest = Some [] :: later)
        \/ exists later, rest = None :: later).
Proof.
  induction pages as [|[[|item items]|] pages IH].
  - exists [], []. repeat split; [constructor | now left].
  - exists [], (Some [] :: pages). repeat split; [constructor|].
    right. left. now exists pages.
  - destruct IH as (full & rest & -> & Hfull & Hrest).
    exists ((item :: items) :: full), rest. repeat split; [|exact Hrest].
    constructor; [discriminate | exact Hfull].
  - exists [], (None :: pages). repeat split; [constructor|].
    right. right. now exists pages.
Qed.

Lemma fetchPages_run {A} (request : nat -> Event) (pages : list (option (list A))) :
  exists full rest,
    pages = (map Some full ++ rest)%list
    /\ Forall (fun items => items <> []) full
    /\ ((rest = [] \/ exists later, rest = Some [] :: later)
        /\ fetchPages request pages 1 []
           = (map request (seq 1 (S (List.length full))), Ok (concat full))
        \/ (exists later, rest = None :: later)
           /\ fetchPages request pages 1 []
              = (map request (seq 1 (S (List.length full))), Panic ApiError)).
Proof.
  destruct (pages_split pages) as (full & rest & -> & Hfull & Hrest).
  exists full, rest. split; [reflexivity|]. split; [exact Hfull|].
  rewrite (fetchPages_leading request full rest 1 [] Hfull).
  rewrite seq_S, map_app.
  destruct Hrest as [Hstop|[Hstop|(later & ->)]].
  - left. split; [now left|].
    now rewrite (fetchPages_stop request rest _ _ (or_introl Hstop)).
  - left. split; [now right|].
    now rewrite (fetchPages_stop request rest _ _ (or_intror Hstop)).
  - right. split; [now exists later|].
    now rewrite fetchPages_fail.
Qed.

(** X1. [getAllReleases] asks for the pages 1, 2, ... in order and stops
    with the first page that is empty or fails: it returns the releases
    of the pages before it, in order, or panics when that page failed;
    pages the server holds after an empty page are never asked for. *)
Theorem getAllReleases_pages (client : Client) :
  exists full rest,
    ListReleases client = (map Some full ++ rest)%list
    /\ Forall (fun page => page <> []) full
    /\ ((rest = [] \/ exists later, rest = Some [] :: later)
        /\ getAllReleases client
           = (map ListReleasesCall (seq 1 (S (List.length full))), Ok (concat full))
        \/ (exists later, rest = None :: later)
           /\ getAllReleases client
              = (map ListReleasesCall (seq 1 (S (List.length full))), Panic ApiError)).
Proof. apply fetchPages_run. Qed.

(** X2. [getNewCommits] asks for the pages of one window only: from
    the start of the epoch when it is given no time, from one second
    after the time it is given otherwise, up to [until], on [branch]; it
    pages like [getAllReleases], returning the commits of the pages
    before the first empty one or panicking on a failed page. *)
Theorem getNewCommits_pages (client : Client) (since : option Time) (until : Time)
    (branch : string) :
  exists from full rest,
    from = match since with None => 0%Z | Some t => (t + 1000000000)%Z end
    /\ ListCommits client branch from until = (map Some full ++ rest)%list
    /\ Forall (fun page => page <> []) full
    /\ ((rest = [] \/ exists later, rest = Some [] :: later)
        /\ getNewCommits client since until branch
           = (map (ListCommitsCall branch from until) (seq 1 (S (List.length full))),
              Ok (concat full))
        \/ (exists later, rest = None :: later)
           /\ getNewCommits client since until branch
              = (map (ListCommitsCall branch from until) (seq 1 (S (List.length full))),
                 Panic ApiError)).
Proof.
  exists (match since with None => 0%Z | Some t => (t + 1000000000)%Z end).
  destruct (fetchPages_run
              (ListCommitsCall branch
                 (match since with None => 0%Z | Some t => (t + 1000000000)%Z end) until)
              (ListCommits client branch
                 (match since with None => 0%Z | Some t => (t + 1000000000)%Z end) until))
    as (full & rest & Hpages & Hfull & Hrun).
  exists full, rest. split; [reflexivity|]. split; [exact Hpages|].
  split; [exact Hfull|]. exact Hrun.
Qed.

Section Coverage.
Context {text : GoText} {sv : Semver} {cc : ConventionalCommits}.

(** ** What the bump decision depends on *)

Lemma scanCommits_breaking (cs : list ConventionalCommit) (st : bumpFlags) :
  breakingChangesFound (scanCommits cs st)
  = breakingChangesFound st || existsb IsBreakingChange cs.
Proof.
  revert st. induction cs as [|c cs IH]; intros st; simpl.
  - now rewrite orb_false_r.
  - destruct (IsBreakingChange c); simpl; [now rewrite orb_true_r|].
    rewrite IH. now destruct (IsFeat c), (IsFix c).
Qed.

(** The choice [newVersion] makes after the scan only looks at which
    kinds of record occur. *)
Lemma choice_of_kinds {T} (cs : list ConventionalCommit) (major minor patch none : T) :
  (if breakingChangesFound (scanCommits cs noFlags) then major
   else if featureChangesFound (scanCommits cs noFlags) then minor
   else if fixChangesFound (scanCommits cs noFlags) then patch
   else none)
  = (if existsb IsBreakingChange cs then major
     else if existsb IsFeat cs then minor
     else if existsb IsFix cs then patch
     else none).
Proof.
  rewrite scanCommits_breaking. simpl.
  destruct (existsb IsBreakingChange cs) eqn:Hb; [reflexivity|].
  rewrite (scanCommits_noneBreaking cs noFlags)
    by (unfold noneBreaking; now apply existsb_false_iff).
  reflexivity.
Qed.

Lemma newVersion_same_kinds (a : VersioningAction) (v : Version)
    (cs cs' : list ConventionalCommit) (first : bool) :
  existsb IsBreakingChange cs = existsb IsBreakingChange cs' ->
  existsb IsFeat cs = existsb IsFeat cs' ->
  existsb IsFix cs = existsb IsFix cs' ->
  newVersion a v cs first = newVersion a v cs' first.
Proof.
  intros Hb Hfeat Hfix. unfold newVersion. destruct first; [reflexivity|].
  cbv zeta. rewrite !choice_of_kinds, Hb, Hfeat, Hfix. reflexivity.
Qed.

Lemma existsb_Permutation {A} (f : A -> bool) (l l' : list A) :
  Permutation l l' -> existsb f l = existsb f l'.
Proof.
  intros Hperm.
  destruct (existsb f l) eqn:Hl; destruct (existsb f l') eqn:Hl'; try reflexivity.
  - apply existsb_exists in Hl. destruct Hl as (x & Hin & Hx).
    rewrite <- Hl'. symmetry. apply existsb_exists. exists x. split; [|exact Hx].
    now apply (Permutation_in _ Hperm).
  - apply existsb_exists in Hl'. destruct Hl' as (x & Hin & Hx).
    rewrite <- Hl. apply existsb_exists. exists x. split; [|exact Hx].
    now apply (Permutation_in _ (Permutation_sym Hperm)).
Qed.

Lemma existsb_filter_implied {A} (f keep : A -> bool) (l : list A) :
  (forall x, f x = true -> keep x = true) ->
  existsb f (filter keep l) = existsb f l.
Proof.
  intros Himp. induction l as [|x l IH]; simpl; [reflexivity|].
  destruct (keep x) eqn:Hk; simpl; [now rewrite IH|].
  destruct (f x) eqn:Hf; [|exact IH].
  rewrite (Himp x Hf) in Hk. discriminate.
Qed.

(** X3. The decision of [newVersion] does not depend on the order of the
    records, although the scan stops at the first breaking one: any
    rearrangement of the records gives the same result, panics
    included. *)
Theorem newVersion_order_irrelevant (a : VersioningAction) (v : Version)
    (cs cs' : list ConventionalCommit) (first : bool) :
  Permutation cs cs' ->
  newVersion a v cs first = newVersion a v cs' first.
Proof.
  intros Hperm.
  apply newVersion_same_kinds; now apply existsb_Permutation.
Qed.

(** X4. Only records that are breaking, a feature or a fix count:
    dropping every other record (chore, docs, refactor, ...) from the
    list leaves the result of [newVersion] unchanged. *)
Theorem newVersion_ignores_other_types (a : VersioningAction) (v : Version)
    (cs : list ConventionalCommit) (first : bool) :
  newVersion a v cs first = newVersion a v (filter flagged cs) first.
Proof.
  apply newVersion_same_kinds; symmetry; apply existsb_filter_implied;
    unfold flagged; intros c Hc; rewrite Hc; now rewrite ?orb_true_r.
Qed.

(** ** The changelog *)

Lemma append_empty_r (s : string) : s ++ "" = s.
Proof. induction s as [|c s IH]; simpl; [reflexivity | now rewrite IH]. Qed.

Lemma append_assoc_string (s t u : string) : (s ++ t) ++ u = s ++ t ++ u.
Proof. induction s as [|c s IH]; simpl; [reflexivity | now rewrite IH]. Qed.

Lemma joinStrings_app (l l' : list string) :
  joinStrings (l ++ l') = joinStrings l ++ joinStrings l'.
Proof.
  induction l as [|s l IH]; simpl; [reflexivity|].
  now rewrite IH, append_assoc_string.
Qed.

Lemma entryTexts_app (l l' : list (outcome string)) :
  entryTexts (l ++ l') = (entryTexts l ++ entryTexts l')%list.
Proof.
  induction l as [|[e|why] l IH]; simpl; [reflexivity | now rewrite IH | exact IH].
Qed.

Lemma collectNotes_relevant (a : VersioningAction)
    (commits : list github.RepositoryCommit) (st : notesState) :
  collectNotes a commits st = collectNotes a (filter (isRelevant a) commits) st.
Proof.
  revert st. induction commits as [|commit rest IH]; intros st; [reflexivity|].
  cbn [collectNotes filter]. unfold isRelevant at 1, scopeMatches.
  destruct (Parse (github.Message commit)) as [record|] eqn:Hparse; [|apply IH].
  destruct (Scope record) as [scope|] eqn:Hscope; [|apply IH].
  destruct (EqualFold scope (component a)) eqn:Hfold; [|apply IH].
  cbn [collectNotes negb]. rewrite Hparse, Hscope, Hfold. cbn [negb].
  destruct (recordCommit commit record st) as [st'|why]; simpl; [apply IH | reflexivity].
Qed.

Lemma classify_relevant (a : VersioningAction) (commits : list github.RepositoryCommit) :
  convertAndFilterCommitsForComponent (component a) commits
  = classify (filter (isRelevant a) commits).
Proof.
  unfold classify.
  induction commits as [|commit rest IH]; [reflexivity|].
  cbn [convertAndFilterCommitsForComponent filter]. unfold isRelevant at 1, scopeMatches.
  destruct (Parse (github.Message commit)) as [record|] eqn:Hparse; [|apply IH].
  destruct (Scope record) as [scope|] eqn:Hscope; [|apply IH].
  destruct (EqualFold scope (component a)) eqn:Hfold; [|apply IH].
  cbn [flat_map]. rewrite Hparse. simpl. now rewrite IH.
Qed.

Lemma classify_length_relevant (a : VersioningAction)
    (commits : list github.RepositoryCommit) :
  List.length (classify (filter (isRelevant a) commits))
  = List.length (filter (isRelevant a) commits).
Proof.
  unfold classify.
  induction commits as [|commit rest IH]; [reflexivity|].
  cbn [filter]. destruct (isRelevant a commit) eqn:Hrel; [|exact IH].
  cbn [flat_map List.length]. unfold isRelevant in Hrel.
  destruct (Parse (github.Message commit)); [|discriminate].
  simpl. now rewrite IH.
Qed.

(** X5. The changelog and the version decision read the same commits:
    the notes built from the commits of the window are the notes built
    from those whose message parses with the scope of the component, and
    the records given to [newVersion] are the records of exactly these
    commits, one for each. *)
Theorem changelog_reads_the_commits_of_the_decision (a : VersioningAction)
    (commits : list github.RepositoryCommit) :
  generateReleaseNotes a commits
    = generateReleaseNotes a (filter (isRelevant a) commits)
  /\ convertAndFilterCommitsForComponent (component a) commits
     = classify (filter (isRelevant a) commits)
  /\ List.length (convertAndFilterCommitsForComponent (component a) commits)
     = List.length (filter (isRelevant a) commits).
Proof.
  split; [|split].
  - unfold generateReleaseNotes. now rewrite collectNotes_relevant.
  - apply classify_relevant.
  - rewrite classify_relevant. apply classify_length_relevant.
Qed.

(** *** One commit of the changelog loop *)

Lemma format_nonempty (commit : github.RepositoryCommit) (r : ConventionalCommit)
    (e : string) :
  formatCommitChangelogEntry commit r = Ok e -> e <> "".
Proof.
  unfold formatCommitChangelogEntry.
  destruct (negb (github.SHA commit =? "")%string).
  - destruct (sliceTo (github.SHA commit) 7); simpl; [|discriminate].
    intros [= <-]. discriminate.
  - intros [= <-]. discriminate.
Qed.

Lemma format_accepted (commit : github.RepositoryCommit) (r : ConventionalCommit) :
  shaAccepted commit = true -> exists e, formatCommitChangelogEntry commit r = Ok e.
Proof.
  unfold shaAccepted, formatCommitChangelogEntry, sliceTo.
  destruct (github.SHA commit =? "")%string; simpl; [eauto|].
  intros ->. simpl. eauto.
Qed.

Lemma format_rejected (commit : github.RepositoryCommit) (r : ConventionalCommit) :
  shaAccepted commit = false ->
  formatCommitChangelogEntry commit r = Panic SliceOutOfRange.
Proof.
  unfold shaAccepted, formatCommitChangelogEntry, sliceTo.
  destruct (github.SHA commit =? "")%string; simpl; [discriminate|].
  now intros ->.
Qed.

(** The entries one commit adds to the bucket of [kind]. *)
Lemma bucket_cons (kind : ConventionalCommit -> bool) (a : VersioningAction)
    (commit : github.RepositoryCommit) (rest : list github.RepositoryCommit) :
  bucket kind a (commit :: rest)
  = (match Parse (github.Message commit) with
     | Some record =>
         if scopeMatches (component a) record && kind record
         then [formatCommitChangelogEntry commit record]
         else []
     | None => []
     end ++ bucket kind a rest)%list.
Proof. reflexivity. Qed.

Lemma recordCommit_inv (commit : github.RepositoryCommit) (r : ConventionalCommit)
    (st st1 : notesState) :
  recordCommit commit r st = Ok st1 ->
  breakingChangesStr st1
    = breakingChangesStr st
      ++ joinStrings (entryTexts (if IsBreakingChange r
                                  then [formatCommitChangelogEntry commit r] else []))
  /\ featuresStr st1
     = featuresStr st
       ++ joinStrings (entryTexts (if IsFeat r
                                   then [formatCommitChangelogEntry commit r] else []))
  /\ fixesStr st1
     = fixesStr st
       ++ joinStrings (entryTexts (if IsFix r
                                   then [formatCommitChangelogEntry commit r] else []))
  /\ (flagged r = true -> exists e, formatCommitChangelogEntry commit r = Ok e)
  /\ contributors st1
     = ((if existsb (String.eqb (github.Login commit)) (contributors st)
         then [] else [github.Login commit]) ++ contributors st)%list
  /\ contributorsStr st1
     = contributorsStr st
       ++ (if existsb (String.eqb (github.Login commit)) (contributors st)
           then "" else contributorLine (github.Login commit)).
Proof.
  unfold recordCommit, flagged, contributorLine.
  destruct (formatCommitChangelogEntry commit r) as [e|why];
    destruct (IsBreakingChange r), (IsFeat r), (IsFix r); simpl;
    destruct (existsb (String.eqb (github.Login commit)) (contributors st)); simpl;
    intros H; try discriminate H; injection H as <-; simpl;
    rewrite ?append_empty_r; repeat split; eauto; discriminate.
Qed.

Lemma recordCommit_runs (commit : github.RepositoryCommit) (r : ConventionalCommit)
    (st : notesState) :
  (flagged r = false \/ shaAccepted commit = true ->
   exists st1, recordCommit commit r st = Ok st1)
  /\ (flagged r = true -> shaAccepted commit = false ->
      recordCommit commit r st = Panic SliceOutOfRange).
Proof.
  split.
  - intros Hok.
    assert (Hcases : flagged r = false
                     \/ exists e, formatCommitChangelogEntry commit r = Ok e).
    { destruct Hok as [Hun|Hsha]; [now left | right; now apply format_accepted]. }
    unfold recordCommit, flagged in *.
    destruct Hcases as [Hun|(e & ->)].
    + apply orb_false_iff in Hun. destruct Hun as [Hun Hfix].
      apply orb_false_iff in Hun. destruct Hun as [Hb Hfeat].
      rewrite Hb, Hfeat, Hfix. simpl.
      destruct (existsb (String.eqb (github.Login commit)) (contributors st));
        simpl; eauto.
    + destruct (IsBreakingChange r), (IsFeat r), (IsFix r); simpl;
        match goal with |- context [existsb ?f ?l] => destruct (existsb f l) end;
        simpl; eauto.
  - intros Hflag Hsha. unfold recordCommit, flagged in *.
    rewrite (format_rejected commit r Hsha).
    destruct (IsBreakingChange r), (IsFeat r), (IsFix r); simpl;
      try reflexivity; discriminate.
Qed.

Lemma existsb_eqb_In (x : string) (l : list string) :
  existsb (String.eqb x) l = true <-> In x l.
Proof.
  rewrite existsb_exists. split.
  - intros (y & Hin & Heq). apply String.eqb_eq in Heq. now subst.
  - intros Hin. exists x. split; [exact Hin | apply String.eqb_refl].
Qed.

(** *** The whole loop *)

(** One step of the loop: a commit is skipped, or recorded. *)
Lemma collectNotes_cons (a : VersioningAction) (commit : github.RepositoryCommit)
    (rest : list github.RepositoryCommit) (st : notesState) :
  collectNotes a (commit :: rest) st
  = if isRelevant a commit
    then match Parse (github.Message commit) with
         | Some record =>
             obind (recordCommit commit record st) (fun st' => collectNotes a rest st')
         | None => collectNotes a rest st
         end
    else collectNotes a rest st.
Proof.
  cbn [collectNotes]. unfold isRelevant, scopeMatches.
  destruct (Parse (github.Message commit)) as [record|]; [|reflexivity].
  destruct (Scope record) as [scope|]; [|reflexivity].
  now destruct (EqualFold scope (component a)).
Qed.

Lemma bucket_skip (kind : ConventionalCommit -> bool) (a : VersioningAction)
    (commit : github.RepositoryCommit) (rest : list github.RepositoryCommit) :
  isRelevant a commit = false -> bucket kind a (commit :: rest) = bucket kind a rest.
Proof.
  intros Hrel. rewrite bucket_cons. unfold isRelevant in Hrel.
  destruct (Parse (github.Message commit)); [|reflexivity].
  now rewrite Hrel.
Qed.

Lemma bucket_keep (kind : ConventionalCommit -> bool) (a : VersioningAction)
    (commit : github.RepositoryCommit) (rest : list github.RepositoryCommit)
    (record : ConventionalCommit) :
  Parse (github.Message commit) = Some record -> isRelevant a commit = true ->
  bucket kind a (commit :: rest)
  = ((if kind record then [formatCommitChangelogEntry commit record] else [])
       ++ bucket kind a rest)%list.
Proof.
  intros Hparse Hrel. rewrite bucket_cons. unfold isRelevant in Hrel.
  rewrite Hparse in *. now rewrite Hrel.
Qed.

Lemma collectNotes_buckets (a : VersioningAction)
    (commits : list github.RepositoryCommit) (st st' : notesState) :
  collectNotes a commits st = Ok st' ->
  breakingChangesStr st'
    = breakingChangesStr st ++ joinStrings (entryTexts (bucket IsBreakingChange a commits))
  /\ featuresStr st'
     = featuresStr st ++ joinStrings (entryTexts (bucket IsFeat a commits))
  /\ fixesStr st'
     = fixesStr st ++ joinStrings (entryTexts (bucket IsFix a commits))
  /\ (forall kind o,
        (forall r, kind r = true -> flagged r = true) ->
        In o (bucket kind a commits) -> exists e, o = Ok e /\ e <> "").
Proof.
  revert st. induction commits as [|commit rest IH]; intros st Hrun.
  - injection Hrun as <-. simpl. rewrite !append_empty_r.
    repeat split. intros kind o _ [].
  - rewrite collectNotes_cons in Hrun.
    destruct (isRelevant a commit) eqn:Hrel.
    + destruct (Parse (github.Message commit)) as [record|] eqn:Hparse;
        [|unfold isRelevant in Hrel; rewrite Hparse in Hrel; discriminate].
      destruct (recordCommit commit record st) as [st1|why] eqn:Hrec;
        simpl in Hrun; [|discriminate].
      destruct (recordCommit_inv _ _ _ _ Hrec) as (Hb & Hfeat & Hfix & Hflag & _).
      destruct (IH _ Hrun) as (Hb' & Hfeat' & Hfix' & Hall).
      rewrite !(bucket_keep _ a commit rest record Hparse Hrel).
      rewrite !entryTexts_app, !joinStrings_app, <- !append_assoc_string.
      rewrite <- Hb, <- Hfeat, <- Hfix.
      split; [exact Hb'|]. split; [exact Hfeat'|]. split; [exact Hfix'|].
      intros kind o Hkind Hin.
      rewrite (bucket_keep _ a commit rest record Hparse Hrel) in Hin.
      apply in_app_iff in Hin. destruct Hin as [Hin|Hin]; [|now apply (Hall kind)].
      destruct (kind record) eqn:Hk; [|destruct Hin].
      destruct Hin as [<-|[]].
      destruct (Hflag (Hkind _ Hk)) as (e & He).
      exists e. split; [exact He | now apply (format_nonempty commit record)].
    + rewrite !(bucket_skip _ a commit rest Hrel).
      destruct (IH _ Hrun) as (Hb' & Hfeat' & Hfix' & Hall).
      repeat split; try assumption.
      intros kind o Hkind Hin. rewrite (bucket_skip _ a commit rest Hrel) in Hin.
      now apply (Hall kind).
Qed.

Lemma flagged_breaking (r : ConventionalCommit) :
  IsBreakingChange r = true -> flagged r = true.
Proof. unfold flagged. now intros ->. Qed.

Lemma flagged_feat (r : ConventionalCommit) : IsFeat r = true -> flagged r = true.
Proof. unfold flagged. intros ->. now rewrite orb_true_r. Qed.

Lemma flagged_fix (r : ConventionalCommit) : IsFix r = true -> flagged r = true.
Proof. unfold flagged. intros ->. now rewrite orb_true_r. Qed.

(** X6. When the changelog loop ends without panic, each of the three
    change sections holds its heading and caption followed by the
    entries of exactly the commits of the component of that kind, in
    the order of the commits, every one of them formatted; a commit that
    is both breaking and a feature (or a fix) is listed in both
    sections. *)
Theorem changelog_sections_list_their_commits (a : VersioningAction)
    (commits : list github.RepositoryCommit) (st : notesState) :
  collectNotes a commits initialNotes = Ok st ->
  breakingChangesStr st
    = breakingChangesInitial
      ++ joinStrings (entryTexts (bucket IsBreakingChange a commits))
  /\ featuresStr st
     = featuresInitial ++ joinStrings (entryTexts (bucket IsFeat a commits))
  /\ fixesStr st
     = fixesInitial ++ joinStrings (entryTexts (bucket IsFix a commits))
  /\ (forall o,
        In o (bucket IsBreakingChange a commits ++ bucket IsFeat a commits
                ++ bucket IsFix a commits) ->
        exists e, o = Ok e /\ e <> "").
Proof.
  intros Hrun.
  destruct (collectNotes_buckets _ _ _ _ Hrun) as (Hb & Hfeat & Hfix & Hall).
  split; [exact Hb|]. split; [exact Hfeat|]. split; [exact Hfix|].
  intros o Hin. rewrite !in_app_iff in Hin.
  destruct Hin as [Hin|[Hin|Hin]].
  - apply (Hall IsBreakingChange o flagged_breaking Hin).
  - apply (Hall IsFeat o flagged_feat Hin).
  - apply (Hall IsFix o flagged_fix Hin).
Qed.

Lemma collectNotes_contributors (a : VersioningAction)
    (commits : list github.RepositoryCommit) (st st' : notesState) :
  collectNotes a commits st = Ok st' ->
  (NoDup (contributors st) -> NoDup (contributors st'))
  /\ (forall login,
        In login (contributors st')
        <-> In login (contributors st)
            \/ exists commit, In commit commits /\ isRelevant a commit = true
                              /\ github.Login commit = login)
  /\ exists added,
       contributors st' = (added ++ contributors st)%list
       /\ contributorsStr st'
          = contributorsStr st ++ joinStrings (map contributorLine (rev added)).
Proof.
  revert st. induction commits as [|commit rest IH]; intros st Hrun.
  - injection Hrun as <-. split; [tauto|]. split.
    + intros login. split; [now left | intros [H|(c & [] & _)]; exact H].
    + exists []. simpl. now rewrite append_empty_r.
  - rewrite collectNotes_cons in Hrun.
    destruct (isRelevant a commit) eqn:Hrel.
    + destruct (Parse (github.Message commit)) as [record|] eqn:Hparse;
        [|unfold isRelevant in Hrel; rewrite Hparse in Hrel; discriminate].
      destruct (recordCommit commit record st) as [st1|why] eqn:Hrec;
        simpl in Hrun; [|discriminate].
      destruct (recordCommit_inv _ _ _ _ Hrec) as (_ & _ & _ & _ & Hlist & Hstr).
      destruct (IH _ Hrun) as (Hnodup & Hmem & added & Hadded & Hlines).
      destruct (existsb (String.eqb (github.Login commit)) (contributors st)) eqn:Hseen.
      * simpl in Hlist. rewrite append_empty_r in Hstr.
        rewrite Hlist in *. rewrite Hstr in *.
        split; [exact Hnodup|]. split; [|now exists added].
        intros login. rewrite Hmem. split.
        -- intros [H|(c & Hc & Hr & Hl)]; [now left|].
           right. exists c. repeat split; try assumption. now right.
        -- intros [H|(c & [<-|Hc] & Hr & Hl)]; [now left| |].
           ++ left. subst login. now apply existsb_eqb_In.
           ++ right. now exists c.
      * simpl in Hlist. rewrite Hlist in *. rewrite Hstr in *.
        split; [|split].
        -- intros Hnd. apply Hnodup. constructor; [|exact Hnd].
           intros Hin. apply existsb_eqb_In in Hin. congruence.
        -- intros login. rewrite Hmem. simpl. split.
           ++ intros [[<-|H]|(c & Hc & Hr & Hl)].
              ** right. exists commit. repeat split; try assumption. now left.
              ** now left.
              ** right. exists c. repeat split; try assumption. now right.
           ++ intros [H|(c & [<-|Hc] & Hr & Hl)].
              ** left. now right.
              ** left. now left.
              ** right. now exists c.
        -- exists (added ++ [github.Login commit])%list. split.
           ++ rewrite Hadded. now rewrite <- app_assoc.
           ++ rewrite Hlines, rev_app_distr. cbn [rev app map joinStrings].
              now rewrite append_assoc_string.
    + destruct (IH _ Hrun) as (Hnodup & Hmem & Hadded).
      split; [exact Hnodup|]. split; [|exact Hadded].
      intros login. rewrite Hmem. split.
      * intros [H|(c & Hc & Hr & Hl)]; [now left|].
        right. exists c. repeat split; try assumption. now right.
      * intros [H|(c & [<-|Hc] & Hr & Hl)]; [now left | congruence |].
        right. now exists c.
Qed.

(** *** The order of the contributors *)

Lemma filter_filter {A} (f g : A -> bool) (l : list A) :
  filter f (filter g l) = filter (fun x => g x && f x) l.
Proof.
  induction l as [|x l IH]; [reflexivity|].
  cbn [filter]. destruct (g x); cbn [filter andb]; [|exact IH].
  destruct (f x); now rewrite IH.
Qed.

Lemma filter_all {A} (f : A -> bool) (l : list A) :
  (forall x, f x = true) -> filter f l = l.
Proof.
  intros Hf. induction l as [|x l IH]; [reflexivity|].
  cbn [filter]. now rewrite Hf, IH.
Qed.

Lemma filter_split {A} (f : A -> bool) (l u v : list A) (x : A) :
  filter f l = (u ++ x :: v)%list ->
  exists u' v', l = (u' ++ x :: v')%list /\ filter f u' = u /\ filter f v' = v
                /\ f x = true.
Proof.
  revert u. induction l as [|h t IH]; intros u Hl.
  - destruct u; discriminate Hl.
  - cbn [filter] in Hl. destruct (f h) eqn:Hh.
    + destruct u as [|h' u].
      * injection Hl as -> Hv. exists [], t. now rewrite Hh.
      * injection Hl as <- Ht. destruct (IH _ Ht) as (u' & v' & -> & Hu & Hv & Hx).
        exists (h :: u'), v'. cbn [filter app]. now rewrite Hh, Hu.
    + destruct (IH _ Hl) as (u' & v' & -> & Hu & Hv & Hx).
      exists (h :: u'), v'. cbn [filter app]. now rewrite Hh.
Qed.

Lemma In_firstAppearances (login : string) (logins : list string) :
  In login (firstAppearances logins) <-> In login logins.
Proof.
  induction logins as [|first rest IH]; [reflexivity|].
  cbn [firstAppearances In]. rewrite filter_In, IH.
  destruct (String.eqb first login) eqn:Heq.
  - apply String.eqb_eq in Heq. subst. simpl. tauto.
  - simpl. tauto.
Qed.

Lemma NoDup_firstAppearances (logins : list string) : NoDup (firstAppearances logins).
Proof.
  induction logins as [|first rest IH]; [constructor|].
  cbn [firstAppearances]. constructor.
  - rewrite filter_In, String.eqb_refl. intros [_ H]. discriminate H.
  - now apply NoDup_filter.
Qed.

(** A login listed before another one has its first place in the list
    before every place of the other. *)
Lemma firstAppearances_order (logins l1 l2 l3 : list string) (x y : string) :
  firstAppearances logins = (l1 ++ x :: l2 ++ y :: l3)%list ->
  exists earlier later,
    logins = (earlier ++ x :: later)%list /\ ~ In x earlier /\ ~ In y earlier.
Proof.
  revert l1 l2 l3. induction logins as [|first rest IH]; intros l1 l2 l3 Hl.
  - destruct l1; discriminate Hl.
  - cbn [firstAppearances] in Hl. destruct l1 as [|z l1].
    + injection Hl as -> _. exists [], rest. simpl. tauto.
    + injection Hl as <- Hrest.
      destruct (filter_split _ _ _ _ _ Hrest) as (u & v & Hall & _ & Hv & Hx).
      destruct (filter_split _ _ _ _ _ Hv) as (u' & v' & -> & _ & _ & Hy).
      destruct (IH _ _ _ Hall) as (earlier & later & -> & Hnx & Hny).
      exists (first :: earlier), later. split; [reflexivity|].
      apply negb_true_iff, String.eqb_neq in Hx, Hy.
      simpl. tauto.
Qed.

Lemma authorsOf_cons (a : VersioningAction) (commit : github.RepositoryCommit)
    (rest : list github.RepositoryCommit) :
  authorsOf a (commit :: rest)
  = ((if isRelevant a commit then [github.Login commit] else []) ++ authorsOf a rest)%list.
Proof. unfold authorsOf. cbn [filter]. now destruct (isRelevant a commit). Qed.

(** What the loop appends to the contributors section: the authors of
    the commits of the component at their first place, without those
    already in the map. *)
Lemma collectNotes_contributor_lines (a : VersioningAction)
    (commits : list github.RepositoryCommit) (st st' : notesState) :
  collectNotes a commits st = Ok st' ->
  contributorsStr st'
  = contributorsStr st
    ++ joinStrings
         (map contributorLine
            (filter (fun login => negb (existsb (String.eqb login) (contributors st)))
                    (firstAppearances (authorsOf a commits)))).
Proof.
  revert st. induction commits as [|commit rest IH]; intros st Hrun.
  - injection Hrun as <-. simpl. now rewrite append_empty_r.
  - rewrite collectNotes_cons in Hrun. rewrite authorsOf_cons.
    destruct (isRelevant a commit) eqn:Hrel; [|apply (IH _ Hrun)].
    destruct (Parse (github.Message commit)) as [record|] eqn:Hparse;
      [|unfold isRelevant in Hrel; rewrite Hparse in Hrel; discriminate].
    destruct (recordCommit commit record st) as [st1|why] eqn:Hrec;
      simpl in Hrun; [|discriminate].
    destruct (recordCommit_inv _ _ _ _ Hrec) as (_ & _ & _ & _ & Hlist & Hstr).
    rewrite (IH _ Hrun), Hstr, Hlist.
    cbn [app firstAppearances filter]. rewrite filter_filter.
    destruct (existsb (String.eqb (github.Login commit)) (contributors st)) eqn:Hseen;
      cbn [negb app map joinStrings].
    + rewrite append_empty_r. do 3 f_equal. apply filter_ext_in.
      intros login _. destruct (String.eqb (github.Login commit) login) eqn:Heq;
        [|reflexivity].
      apply String.eqb_eq in Heq. subst login. now rewrite Hseen.
    + rewrite <- append_assoc_string. do 3 f_equal. apply filter_ext.
      intros login. cbn [existsb]. rewrite negb_orb.
      now rewrite (String.eqb_sym login).
Qed.

(** X7. When the changelog loop ends without panic, the contributors
    section is its caption followed by one line for each author of a
    commit of the component, whatever the type of the commit (a chore
    counts), in the order of the first commit of each: a login is listed
    once, and where one login is listed before another, the commits
    have a commit of the first before any commit of either. The map of
    contributors holds the same logins. *)
Theorem contributors_once_each (a : VersioningAction)
    (commits : list github.RepositoryCommit) (st : notesState) :
  collectNotes a commits initialNotes = Ok st ->
  contributorsStr st
  = contributorsInitial
    ++ joinStrings (map contributorLine (firstAppearances (authorsOf a commits)))
  /\ (forall login,
        In login (firstAppearances (authorsOf a commits))
        <-> exists commit, In commit commits /\ isRelevant a commit = true
                           /\ github.Login commit = login)
  /\ NoDup (firstAppearances (authorsOf a commits))
  /\ (forall before first between second after,
        firstAppearances (authorsOf a commits)
        = (before ++ first :: between ++ second :: after)%list ->
        exists earlier later,
          authorsOf a commits = (earlier ++ first :: later)%list
          /\ ~ In first earlier /\ ~ In second earlier)
  /\ (forall login,
        In login (contributors st)
        <-> In login (firstAppearances (authorsOf a commits))).
Proof.
  intros Hrun.
  assert (Hmem : forall login,
             In login (firstAppearances (authorsOf a commits))
             <-> exists commit, In commit commits /\ isRelevant a commit = true
                                /\ github.Login commit = login).
  { intros login. rewrite In_firstAppearances. unfold authorsOf.
    rewrite in_map_iff. split.
    - intros (commit & Hlogin & Hin). apply filter_In in Hin. now exists commit.
    - intros (commit & Hin & Hrel & Hlogin). exists commit.
      split; [exact Hlogin|]. now apply filter_In. }
  split; [|split; [exact Hmem|split; [apply NoDup_firstAppearances|split]]].
  - rewrite (collectNotes_contributor_lines _ _ _ _ Hrun).
    change (contributorsStr initialNotes) with contributorsInitial.
    now rewrite filter_all.
  - intros before first between second after Hlisted.
    apply (firstAppearances_order _ _ _ _ _ _ Hlisted).
  - intros login. rewrite Hmem.
    destruct (collectNotes_contributors _ _ _ _ Hrun) as (_ & Hset & _).
    rewrite Hset. simpl. tauto.
Qed.

(** *** When the changelog panics *)

Lemma collectNotes_runs (a : VersioningAction)
    (commits : list github.RepositoryCommit) (st : notesState) :
  (forall commit r,
     In commit commits -> Parse (github.Message commit) = Some r ->
     isRelevant a commit = true -> flagged r = true -> shaAccepted commit = true) ->
  exists st', collectNotes a commits st = Ok st'.
Proof.
  revert st. induction commits as [|commit rest IH]; intros st Hsha.
  - now exists st.
  - rewrite collectNotes_cons.
    assert (Hrest : forall st1, exists st', collectNotes a rest st1 = Ok st').
    { intros st1. apply IH. intros c r Hc. apply Hsha. now right. }
    destruct (isRelevant a commit) eqn:Hrel; [|apply Hrest].
    destruct (Parse (github.Message commit)) as [record|] eqn:Hparse; [|apply Hrest].
    destruct (proj1 (recordCommit_runs commit record st)) as (st1 & ->).
    + destruct (flagged record) eqn:Hflag; [|now left].
      right. apply (Hsha commit record); auto. now left.
    + simpl. apply Hrest.
Qed.

Lemma collectNotes_panics (a : VersioningAction)
    (commits : list github.RepositoryCommit) (st : notesState) :
  (exists commit r,
     In commit commits /\ Parse (github.Message commit) = Some r
     /\ isRelevant a commit = true /\ flagged r = true
     /\ shaAccepted commit = false) ->
  collectNotes a commits st = Panic SliceOutOfRange.
Proof.
  revert st. induction commits as [|commit rest IH];
    intros st (bad & r & Hin & Hparse & Hrel & Hflag & Hsha); [destruct Hin|].
  rewrite collectNotes_cons.
  destruct Hin as [<-|Hin].
  - rewrite Hrel, Hparse.
    now rewrite (proj2 (recordCommit_runs commit r st) Hflag Hsha).
  - assert (Hrest : forall st1, collectNotes a rest st1 = Panic SliceOutOfRange).
    { intros st1. apply IH. now exists bad, r. }
    destruct (isRelevant a commit) eqn:Hrel'; [|apply Hrest].
    destruct (Parse (github.Message commit)) as [record|] eqn:Hparse'; [|apply Hrest].
    destruct (flagged record && negb (shaAccepted commit)) eqn:Hbad.
    + apply andb_true_iff in Hbad. destruct Hbad as [Hf Hs].
      apply negb_true_iff in Hs.
      now rewrite (proj2 (recordCommit_runs commit record st) Hf Hs).
    + destruct (proj1 (recordCommit_runs commit record st)) as (st1 & ->).
      * apply andb_false_iff in Hbad. destruct Hbad as [Hf|Hs]; [now left|].
        right. now apply negb_false_iff in Hs.
      * simpl. apply Hrest.
Qed.

(** X8. [generateReleaseNotes] panics exactly when some commit of the
    component that is breaking, a feature or a fix has a SHA of 1 to 6
    bytes (the slice [SHA[:7]]); commits of other components, commits
    that do not parse and commits of other types are never formatted,
    whatever their SHA. *)
Theorem generateReleaseNotes_panics_on_short_sha (a : VersioningAction)
    (commits : list github.RepositoryCommit) :
  ((forall commit r,
      In commit commits -> Parse (github.Message commit) = Some r ->
      isRelevant a commit = true -> flagged r = true -> shaAccepted commit = true) ->
   exists notes, generateReleaseNotes a commits = Ok notes)
  /\ ((exists commit r,
         In commit commits /\ Parse (github.Message commit) = Some r
         /\ isRelevant a commit = true /\ flagged r = true
         /\ shaAccepted commit = false) ->
      generateReleaseNotes a commits = Panic SliceOutOfRange).
Proof.
  unfold generateReleaseNotes. split.
  - intros Hsha. destruct (collectNotes_runs a commits initialNotes Hsha) as (st & ->).
    simpl. eauto.
  - intros Hbad. now rewrite (collectNotes_panics a commits initialNotes Hbad).
Qed.

(** *** The layout of the notes *)

Lemma hasByte_append (c : ascii) (s t : string) :
  hasByte c (s ++ t) = hasByte c s || hasByte c t.
Proof.
  induction s as [|b s IH]; simpl; [reflexivity|].
  now rewrite IH, orb_assoc.
Qed.

Lemma Replace1_here (s old new : string) :
  HasPrefix s old = true -> Replace1 s old new = new ++ drop (String.length old) s.
Proof. intros H. destruct s; cbn [Replace1]; now rewrite H. Qed.

(** A placeholder is not found in a text without its first byte. *)
Lemma Replace1_after (c : ascii) (old' pre rest new : string) :
  hasByte c pre = false ->
  Replace1 (pre ++ rest) (String c old') new = pre ++ Replace1 rest (String c old') new.
Proof.
  induction pre as [|b pre IH]; intros Hnone; [reflexivity|].
  simpl in Hnone. apply orb_false_iff in Hnone. destruct Hnone as [Hb Hnone].
  cbn [append Replace1]. unfold HasPrefix at 1. cbn [String.prefix].
  destruct (ascii_dec c b) as [->|_].
  - rewrite Ascii.eqb_refl in Hb. discriminate.
  - now rewrite IH.
Qed.

Lemma Replace1_placeholder (c : ascii) (old' pre post new : string) :
  hasByte c pre = false ->
  Replace1 (pre ++ String c old' ++ post) (String c old') new = pre ++ new ++ post.
Proof.
  intros Hnone. rewrite (Replace1_after c old' pre _ new Hnone).
  rewrite Replace1_here by (unfold HasPrefix; apply prefix_append).
  now rewrite drop_append.
Qed.

Lemma fillSection_placeholder (c : ascii) (old' pre post built initial : string) :
  hasByte c pre = false ->
  fillSection (pre ++ String c old' ++ post) (String c old') built initial
  = pre ++ (if (String.length built =? String.length initial)%nat then "" else built)
        ++ post.
Proof.
  intros Hnone. unfold fillSection.
  destruct (String.length built =? String.length initial)%nat;
    now apply Replace1_placeholder.
Qed.

Lemma joinStrings_length (lines : list string) (line : string) :
  In line lines -> (String.length line <= String.length (joinStrings lines))%nat.
Proof.
  induction lines as [|l lines IH]; intros Hin; [destruct Hin|].
  simpl. rewrite length_append. destruct Hin as [->|Hin]; [lia|].
  specialize (IH Hin). lia.
Qed.

(** A builder that holds its caption and non-empty lines is rendered as
    a section, and dropped when it has no line. *)
Lemma rendered_section (built initial : string) (lines : list string) :
  built = initial ++ joinStrings lines ->
  (forall line, In line lines -> line <> "") ->
  (if (String.length built =? String.length initial)%nat then "" else built)
  = renderSection initial lines.
Proof.
  intros -> Hlines. destruct lines as [|line lines]; simpl.
  - now rewrite append_empty_r, Nat.eqb_refl.
  - rewrite !length_append.
    assert (Hpos : (0 < String.length line)%nat).
    { destruct line; [now elim (Hlines "" (or_introl eq_refl)) | simpl; lia]. }
    destruct (Nat.eqb_spec (String.length initial
                            + (String.length line + String.length (joinStrings lines)))
                           (String.length initial)); [lia | reflexivity].
Qed.

Lemma In_entryTexts (e : string) (entries : list (outcome string)) :
  In e (entryTexts entries) -> In (Ok e) entries.
Proof.
  induction entries as [|[e'|why] entries IH]; simpl; [tauto| |].
  - intros [->|Hin]; [now left | right; now apply IH].
  - intros Hin. right. now apply IH.
Qed.

(** X9. When the changelog loop ends without panic and no change entry
    holds an opening brace, the notes are: an empty line, the caption,
    then the breaking, feature, fix and contributor sections, each on a
    line of its own, a section being its heading, its caption and its
    lines, and an empty line when it has no line. *)
Theorem release_notes_layout (a : VersioningAction)
    (commits : list github.RepositoryCommit) (st : notesState) :
  collectNotes a commits initialNotes = Ok st ->
  hasByte "{" (breakingChangesStr st) = false ->
  hasByte "{" (featuresStr st) = false ->
  hasByte "{" (fixesStr st) = false ->
  generateReleaseNotes a commits
  = Ok (nl ++ notesCaption ++ nl
        ++ renderSection breakingChangesInitial
             (entryTexts (bucket IsBreakingChange a commits)) ++ nl
        ++ renderSection featuresInitial (entryTexts (bucket IsFeat a commits)) ++ nl
        ++ renderSection fixesInitial (entryTexts (bucket IsFix a commits)) ++ nl
        ++ renderSection contributorsInitial
             (map contributorLine (rev (contributors st))) ++ nl).
Proof.
  intros Hrun Hb Hfeat Hfix.
  destruct (collectNotes_buckets _ _ _ _ Hrun) as (Ebreaking & Efeat & Efix & Hall).
  destruct (collectNotes_contributors _ _ _ _ Hrun)
    as (_ & _ & added & Hadded & Elines).
  change (breakingChangesStr initialNotes) with breakingChangesInitial in Ebreaking.
  change (featuresStr initialNotes) with featuresInitial in Efeat.
  change (fixesStr initialNotes) with fixesInitial in Efix.
  change (contributorsStr initialNotes) with contributorsInitial in Elines.
  change (contributors initialNotes) with (@nil string) in Hadded.
  rewrite app_nil_r in Hadded. subst added.
  assert (Htexts : forall kind,
             (forall r, kind r = true -> flagged r = true) ->
             forall line, In line (entryTexts (bucket kind a commits)) -> line <> "").
  { intros kind Hkind line Hin. apply In_entryTexts in Hin.
    destruct (Hall kind _ Hkind Hin) as (e & [= <-] & Hne). exact Hne. }
  pose proof (rendered_section _ _ _ Ebreaking (Htexts _ flagged_breaking)) as Rb.
  pose proof (rendered_section _ _ _ Efeat (Htexts _ flagged_feat)) as Rfeat.
  pose proof (rendered_section _ _ _ Efix (Htexts _ flagged_fix)) as Rfix.
  assert (Rc : (if (String.length (contributorsStr st)
                    =? String.length contributorsInitial)%nat
                then "" else contributorsStr st)
               = renderSection contributorsInitial
                   (map contributorLine (rev (contributors st)))).
  { apply rendered_section; [exact Elines|].
    intros line Hin. apply in_map_iff in Hin. destruct Hin as (login & <- & _).
    discriminate. }
  assert (Hquiet : forall built initial lines,
             hasByte "{" built = false ->
             (if (String.length built =? String.length initial)%nat then "" else built)
             = renderSection initial lines ->
             hasByte "{" (renderSection initial lines) = false).
  { intros built initial lines Hnone <-.
    now destruct (String.length built =? String.length initial)%nat. }
  pose proof (Hquiet _ _ _ Hb Rb) as Qb.
  pose proof (Hquiet _ _ _ Hfeat Rfeat) as Qfeat.
  pose proof (Hquiet _ _ _ Hfix Rfix) as Qfix.
  unfold generateReleaseNotes. rewrite Hrun. cbn [obind]. f_equal.
  set (B := renderSection breakingChangesInitial _) in *.
  set (F := renderSection featuresInitial _) in *.
  set (X := renderSection fixesInitial _) in *.
  set (C := renderSection contributorsInitial _) in *.
  change releaseNotesTemplate
    with ((nl ++ notesCaption ++ nl) ++ "{breaking}"
            ++ (nl ++ "{features}" ++ nl ++ "{fixes}" ++ nl ++ "{contributors}" ++ nl)).
  rewrite fillSection_placeholder by reflexivity. rewrite Rb.
  replace ((nl ++ notesCaption ++ nl) ++ B
             ++ nl ++ "{features}" ++ nl ++ "{fixes}" ++ nl ++ "{contributors}" ++ nl)
    with (((nl ++ notesCaption ++ nl) ++ B ++ nl) ++ "{features}"
            ++ (nl ++ "{fixes}" ++ nl ++ "{contributors}" ++ nl))
    by (now rewrite !append_assoc_string).
  rewrite fillSection_placeholder
    by (rewrite !hasByte_append, Qb; reflexivity).
  rewrite Rfeat.
  replace (((nl ++ notesCaption ++ nl) ++ B ++ nl) ++ F
             ++ nl ++ "{fixes}" ++ nl ++ "{contributors}" ++ nl)
    with ((((nl ++ notesCaption ++ nl) ++ B ++ nl) ++ F ++ nl) ++ "{fixes}"
            ++ (nl ++ "{contributors}" ++ nl))
    by (now rewrite !append_assoc_string).
  rewrite fillSection_placeholder
    by (rewrite !hasByte_append, Qb, Qfeat; reflexivity).
  rewrite Rfix.
  replace ((((nl ++ notesCaption ++ nl) ++ B ++ nl) ++ F ++ nl) ++ X
             ++ nl ++ "{contributors}" ++ nl)
    with (((((nl ++ notesCaption ++ nl) ++ B ++ nl) ++ F ++ nl) ++ X ++ nl)
            ++ "{contributors}" ++ nl)
    by (now rewrite !append_assoc_string).
  rewrite fillSection_placeholder
    by (rewrite !hasByte_append, Qb, Qfeat, Qfix; reflexivity).
  rewrite Rc. now rewrite !append_assoc_string.
Qed.

(** *** The decision and the sections *)

Lemma convertAndFilter_cons (a : VersioningAction) (commit : github.RepositoryCommit)
    (rest : list github.RepositoryCommit) :
  convertAndFilterCommitsForComponent (component a) (commit :: rest)
  = if isRelevant a commit
    then match Parse (github.Message commit) with
         | Some record =>
             record :: convertAndFilterCommitsForComponent (component a) rest
         | None => convertAndFilterCommitsForComponent (component a) rest
         end
    else convertAndFilterCommitsForComponent (component a) rest.
Proof.
  cbn [convertAndFilterCommitsForComponent]. unfold isRelevant, scopeMatches.
  destruct (Parse (github.Message commit)) as [record|]; [|reflexivity].
  destruct (Scope record) as [scope|]; [|reflexivity].
  now destruct (EqualFold scope (component a)).
Qed.

Lemma bucket_empty_iff (kind : ConventionalCommit -> bool) (a : VersioningAction)
    (commits : list github.RepositoryCommit) :
  bucket kind a commits = []
  <-> existsb kind (convertAndFilterCommitsForComponent (component a) commits) = false.
Proof.
  induction commits as [|commit rest IH]; [simpl; tauto|].
  rewrite convertAndFilter_cons.
  destruct (isRelevant a commit) eqn:Hrel.
  - destruct (Parse (github.Message commit)) as [record|] eqn:Hparse;
      [|unfold isRelevant in Hrel; rewrite Hparse in Hrel; discriminate].
    rewrite (bucket_keep kind a commit rest record Hparse Hrel). simpl.
    destruct (kind record); simpl; [split; discriminate | exact IH].
  - now rewrite (bucket_skip kind a commit rest Hrel).
Qed.

Lemma section_kept (built initial : string) (lines : list string) :
  built = initial ++ joinStrings lines ->
  (forall line, In line lines -> line <> "") ->
  (String.length built =? String.length initial)%nat = false <-> lines <> [].
Proof.
  intros -> Hlines. rewrite length_append. destruct lines as [|line lines]; simpl.
  - rewrite Nat.add_0_r, Nat.eqb_refl. split; [discriminate | intros H; now elim H].
  - rewrite length_append.
    assert (Hpos : (0 < String.length line)%nat).
    { destruct line; [now elim (Hlines "" (or_introl eq_refl)) | simpl; lia]. }
    split; [discriminate|]. intros _. apply Nat.eqb_neq. lia.
Qed.

Lemma entryTexts_empty_iff (entries : list (outcome string)) :
  (forall o, In o entries -> exists e, o = Ok e /\ e <> "") ->
  entryTexts entries = [] <-> entries = [].
Proof.
  intros Hall. destruct entries as [|[e|why] entries]; simpl.
  - tauto.
  - split; discriminate.
  - destruct (Hall (Panic why) (or_introl eq_refl)) as (e & He & _). discriminate.
Qed.

Lemma baseVersion_bump_iff (v : Version) (cs : list ConventionalCommit) :
  (exists b, baseVersion v cs false = Some b)
  <-> existsb IsBreakingChange cs = true \/ existsb IsFeat cs = true
      \/ existsb IsFix cs = true.
Proof.
  unfold baseVersion. cbv zeta. rewrite choice_of_kinds.
  destruct (existsb IsBreakingChange cs), (existsb IsFeat cs), (existsb IsFix cs);
    split; eauto; intros H;
    try (destruct H as (b & H); discriminate H);
    destruct H as [H|[H|H]]; discriminate H.
Qed.

(** X10. When the changelog loop ends without panic, a bump is decided
    from the commits of the window exactly when the notes keep at least
    one of the three change sections (the length tests that close
    [generateReleaseNotes]): the decision and the changelog never
    disagree on whether the component changed. *)
Theorem bump_iff_change_section (a : VersioningAction) (v : Version)
    (commits : list github.RepositoryCommit) (st : notesState) :
  collectNotes a commits initialNotes = Ok st ->
  (exists b,
     baseVersion v (convertAndFilterCommitsForComponent (component a) commits) false
     = Some b)
  <-> (String.length (breakingChangesStr st)
       =? String.length breakingChangesInitial)%nat = false
      \/ (String.length (featuresStr st) =? String.length featuresInitial)%nat = false
      \/ (String.length (fixesStr st) =? String.length fixesInitial)%nat = false.
Proof.
  intros Hrun.
  destruct (collectNotes_buckets _ _ _ _ Hrun) as (Ebreaking & Efeat & Efix & Hall).
  change (breakingChangesStr initialNotes) with breakingChangesInitial in Ebreaking.
  change (featuresStr initialNotes) with featuresInitial in Efeat.
  change (fixesStr initialNotes) with fixesInitial in Efix.
  assert (Hkept : forall kind built initial,
             (forall r, kind r = true -> flagged r = true) ->
             built = initial ++ joinStrings (entryTexts (bucket kind a commits)) ->
             (String.length built =? String.length initial)%nat = false
             <-> existsb kind
                   (convertAndFilterCommitsForComponent (component a) commits) = true).
  { intros kind built initial Hkind Ebuilt.
    rewrite (section_kept _ _ _ Ebuilt).
    - rewrite (entryTexts_empty_iff _ (fun o => Hall kind o Hkind)).
      rewrite bucket_empty_iff.
      destruct (existsb kind _); split; congruence.
    - intros line Hin. apply In_entryTexts in Hin.
      destruct (Hall kind _ Hkind Hin) as (e & [= <-] & Hne). exact Hne. }
  rewrite baseVersion_bump_iff.
  rewrite (Hkept _ _ _ flagged_breaking Ebreaking).
  rewrite (Hkept _ _ _ flagged_feat Efeat).
  rewrite (Hkept _ _ _ flagged_fix Efix).
  tauto.
Qed.

(** ** Publishing *)

Lemma createGitHubRelease_run (client : Client) (a : VersioningAction) (v : Version)
    (commits : list github.RepositoryCommit) :
  createGitHubRelease client a v commits
  = match generateReleaseNotes a commits with
    | Ok notes =>
        ([CreateReleaseCall (releaseFor a v notes)],
         if CreateRelease client (releaseFor a v notes) then Ok tt else Panic ApiError)
    | Panic why => ([], Panic why)
    end.
Proof.
  unfold createGitHubRelease, releaseFor.
  destruct (generateReleaseNotes a commits) as [notes|why]; simpl; [|reflexivity].
  match goal with |- context [CreateRelease client ?r] =>
    destruct (CreateRelease client r) end; reflexivity.
Qed.

(** How a run ends: without any request for a release, or, for a run
    that publishes a decided version whose notes were built, with that
    request as its last call. *)
Lemma GenerateVersion_cases (client : Client) (a : VersioningAction) (dryRun : bool) :
  (quiet (fst (GenerateVersion client a dryRun))
   /\ (dryRun = false ->
       forall v, snd (GenerateVersion client a dryRun) <> Ok (Some v)))
  \/ (dryRun = false
      /\ exists fetched v0 first commits v notes,
           resolveInputs client a = (fetched, Ok (v0, first, commits))
           /\ quiet fetched
           /\ newVersion a v0
                (convertAndFilterCommitsForComponent (component a) commits) first
              = Ok (Some v)
           /\ generateReleaseNotes a commits = Ok notes
           /\ GenerateVersion client a dryRun
              = ((fetched ++ [CreateReleaseCall (releaseFor a v notes)])%list,
                 if CreateRelease client (releaseFor a v notes)
                 then Ok (Some v) else Panic ApiError)).
Proof.
  pose proof (quiet_resolveInputs client a) as Hq.
  destruct (resolveInputs client a) as [fetched [[[v0 first] commits]|why]] eqn:Hres.
  - rewrite (GenerateVersion_resolved _ _ dryRun _ _ _ _ Hres).
    simpl in Hq.
    destruct (newVersion a v0 _ first) as [[v|]|why] eqn:Hnew.
    + destruct dryRun.
      * left. simpl. rewrite app_nil_r. split; [exact Hq | discriminate].
      * cbn [bind publish]. rewrite createGitHubRelease_run.
        destruct (generateReleaseNotes a commits) as [notes|why] eqn:Hnotes.
        -- right. split; [reflexivity|].
           exists fetched, v0, first, commits, v, notes.
           repeat split; try assumption.
           cbn [bind]. now destruct (CreateRelease client (releaseFor a v notes)).
        -- left. simpl. rewrite app_nil_r. split; [exact Hq|]. intros _ w. discriminate.
    + left. simpl. rewrite app_nil_r. split; [exact Hq|]. intros _ w. discriminate.
    + left. simpl. split; [exact Hq|]. intros _ w. discriminate.
  - left. rewrite (GenerateVersion_unresolved _ _ _ _ Hres). simpl in *.
    split; [exact Hq|]. intros _ w. discriminate.
Qed.

Lemma quiet_In (t : list Event) (release : github.RepositoryRelease) :
  quiet t -> ~ In (CreateReleaseCall release) t.
Proof. intros Hq. now apply quiet_noReleaseRequested. Qed.

(** X11. A run asks for at most one release, as its last call and only
    when it is no dry run. A publishing run that returns a version has
    asked for exactly the release of that version: its tag is the
    lower-cased component prefix and version string, its target is the
    revision of the action, it is marked prerelease exactly off the
    default branch, GitHub's own notes are turned off and its body is
    the changelog of the commits of the window; and the API accepted
    it. *)
Theorem published_release (client : Client) (a : VersioningAction) :
  (forall dryRun release,
     In (CreateReleaseCall release) (fst (GenerateVersion client a dryRun)) ->
     dryRun = false
     /\ exists fetched,
          fst (GenerateVersion client a dryRun)
          = (fetched ++ [CreateReleaseCall release])%list
          /\ noReleaseRequested fetched)
  /\ (forall t v,
        GenerateVersion client a false = (t, Ok (Some v)) ->
        exists fetched v0 first commits notes,
          resolveInputs client a = (fetched, Ok (v0, first, commits))
          /\ generateReleaseNotes a commits = Ok notes
          /\ t = (fetched ++ [CreateReleaseCall (releaseFor a v notes)])%list
          /\ noReleaseRequested fetched
          /\ CreateRelease client (releaseFor a v notes) = true
          /\ github.TagName (releaseFor a v notes)
             = ToLower (prefixWithComponent (component a) (VersionString v))
          /\ github.TargetCommitish (releaseFor a v notes) = revision a
          /\ github.Prerelease (releaseFor a v notes)
             = negb (branch a =? defaultBranch a)%string
          /\ github.GenerateReleaseNotes (releaseFor a v notes) = false
          /\ github.Body (releaseFor a v notes) = notes).
Proof.
  split.
  - intros dryRun release Hin.
    destruct (GenerateVersion_cases client a dryRun)
      as [[Hq _]|(-> & fetched & v0 & first & commits & v & notes
                     & _ & Hq & _ & _ & Hrun)].
    + now elim (quiet_In _ release Hq).
    + split; [reflexivity|]. rewrite Hrun in *. cbn [fst] in *.
      apply in_app_iff in Hin. destruct Hin as [Hin|[Hin|[]]].
      * now elim (quiet_In _ release Hq).
      * injection Hin as <-. exists fetched. split; [reflexivity|].
        now apply quiet_noReleaseRequested.
  - intros t v Hrun.
    destruct (GenerateVersion_cases client a false)
      as [[_ Hno]|(_ & fetched & v0 & first & commits & w & notes
                      & Hres & Hq & _ & Hnotes & Hrun')].
    + rewrite Hrun in Hno. now elim (Hno eq_refl v).
    + rewrite Hrun in Hrun'.
      destruct (CreateRelease client (releaseFor a w notes)) eqn:Hcreated;
        [|discriminate].
      injection Hrun' as -> <-.
      exists fetched, v0, first, commits, notes.
      repeat split; try assumption; try reflexivity.
      now apply quiet_noReleaseRequested.
Qed.

(** ** The order of the calls *)

Lemma inStageOrder_from (lo lo' : nat) (t : list Event) :
  (lo' <= lo)%nat -> inStageOrder lo t -> inStageOrder lo' t.
Proof.
  destruct t as [|e t]; [tauto|]. simpl. intros Hle [He Ht]. split; [lia | exact Ht].
Qed.

Lemma inStageOrder_app (lo mid : nat) (t1 t2 : list Event) :
  inStageOrder lo t1 -> (forall e, In e t1 -> (phase e <= mid)%nat) ->
  (lo <= mid)%nat -> inStageOrder mid t2 ->
  inStageOrder lo (t1 ++ t2).
Proof.
  revert lo. induction t1 as [|e t1 IH]; intros lo H1 Hmax Hle H2.
  - now apply (inStageOrder_from mid).
  - simpl in *. destruct H1 as [He H1]. split; [exact He|].
    apply IH; auto.
Qed.

Lemma staged_nil (lo hi : nat) : staged lo hi [].
Proof. split; [exact I | intros e []]. Qed.

Lemma staged_uniform (p : nat) (t : list Event) :
  (forall e, In e t -> phase e = p) -> staged p p t.
Proof.
  intros Hall. split.
  - induction t as [|e t IH]; [exact I|]. simpl. split.
    + rewrite (Hall e (or_introl eq_refl)). lia.
    + rewrite (Hall e (or_introl eq_refl)). apply IH. intros e' He'. apply Hall. now right.
  - intros e He. rewrite (Hall e He). lia.
Qed.

Lemma staged_widen (lo hi lo' hi' : nat) (t : list Event) :
  (lo' <= lo)%nat -> (hi <= hi')%nat -> staged lo hi t -> staged lo' hi' t.
Proof.
  intros Hlo Hhi [Hord Hmax]. split.
  - now apply (inStageOrder_from lo).
  - intros e He. specialize (Hmax e He). lia.
Qed.

Lemma staged_bind {A B} (lo mid hi : nat) (m : M A) (k : A -> M B) :
  (lo <= mid)%nat -> (mid <= hi)%nat ->
  staged lo mid (fst m) -> (forall x, staged mid hi (fst (k x))) ->
  staged lo hi (fst (bind m k)).
Proof.
  intros Hlo Hhi [Hord Hmax] Hk.
  destruct m as [t [x|why]]; simpl in *.
  - destruct (Hk x) as [Hord' Hmax']. destruct (k x) as [t' r]. simpl in *. split.
    + now apply (inStageOrder_app lo mid).
    + intros e He. apply in_app_iff in He. destruct He as [He|He].
      * specialize (Hmax e He). lia.
      * now apply Hmax'.
  - split; [exact Hord|]. intros e He. specialize (Hmax e He). lia.
Qed.

Lemma staged_fetchPages {A} (request : nat -> Event) (p : nat)
    (pages : list (option (list A))) (page : nat) (existing : list A) :
  (forall q, phase (request q) = p) ->
  staged p p (fst (fetchPages request pages page existing)).
Proof.
  intros Hp. apply staged_uniform. intros e He.
  apply fetchPages_events in He. destruct He as (q & ->). apply Hp.
Qed.

(** X15. In every run, also one that panics, the calls are made in
    stage order: the pages of releases first, then the commit dates,
    then the pages of commits, then the release; no call of an earlier
    stage follows a call of a later one. *)
Theorem calls_in_stage_order (client : Client) (a : VersioningAction) (dryRun : bool) :
  inStageOrder 0 (fst (GenerateVersion client a dryRun))
  /\ forall t0 t1 t2 e1 e2,
       fst (GenerateVersion client a dryRun) = (t0 ++ e1 :: t1 ++ e2 :: t2)%list ->
       (phase e1 <= phase e2)%nat.
Proof.
  assert (Hstaged : staged 0 3 (fst (GenerateVersion client a dryRun))).
  { unfold GenerateVersion.
    apply (staged_bind 0 0 3); [lia | lia | now apply staged_fetchPages|].
    intros allReleases.
    apply (staged_bind 0 0 3); [lia | lia | apply staged_nil|].
    intros [existingVersion first].
    apply (staged_bind 0 1 3); [lia | lia | |].
    { apply (staged_widen 1 1); [lia | lia|]. unfold getPreviousChangeTime.
      destruct (filterAndSortReleasesForComponent (component a) allReleases);
        [apply staged_nil|].
      apply (staged_bind 1 1 1); [lia | lia | |intros; apply staged_nil].
      apply staged_uniform. intros e [<-|[]]. reflexivity. }
    intros previousChangeTime.
    apply (staged_bind 1 1 3); [lia | lia | |].
    { apply staged_uniform. intros e [<-|[]]. reflexivity. }
    intros currentChangeTime.
    apply (staged_bind 1 2 3); [lia | lia | |].
    { apply (staged_widen 2 2); [lia | lia|]. now apply staged_fetchPages. }
    intros newCommits.
    apply (staged_bind 2 2 3); [lia | lia | apply staged_nil|].
    intros [v|]; [|apply staged_nil].
    destruct dryRun; [apply staged_nil|].
    apply (staged_bind 2 3 3); [lia | lia | |intros; apply staged_nil].
    apply (staged_widen 3 3); [lia | lia|].
    apply staged_uniform. intros e He. rewrite createGitHubRelease_run in He.
    destruct (generateReleaseNotes a newCommits); simpl in He; [|destruct He].
    destruct He as [<-|[]]. reflexivity. }
  destruct Hstaged as [Hord _]. split; [exact Hord|].
  intros t0 t1 t2 e1 e2 Heq. rewrite Heq in Hord. clear Heq.
  assert (Hfrom : forall lo t, inStageOrder lo (t ++ e2 :: t2) -> (lo <= phase e2)%nat).
  { intros lo t. revert lo. induction t as [|e t IH]; intros lo; simpl.
    - tauto.
    - intros [He Ht]. specialize (IH _ Ht). lia. }
  revert Hord. generalize 0. induction t0 as [|e t0 IH]; intros lo; simpl.
  - intros [_ Ht]. now apply (Hfrom _ t1).
  - intros [_ Ht]. now apply (IH (phase e)).
Qed.

(** ** Tags and components *)

Lemma asciiLower_idempotent (c : ascii) : asciiLower (asciiLower c) = asciiLower c.
Proof. destruct c as [[] [] [] [] [] [] [] []]; reflexivity. Qed.

Lemma asciiLower_below_128 (c : ascii) :
  (N_of_ascii (asciiLower c) <? 128)%N = (N_of_ascii c <? 128)%N.
Proof. destruct c as [[] [] [] [] [] [] [] []]; reflexivity. Qed.

Lemma asciiToLower_idempotent (s : string) :
  asciiToLower (asciiToLower s) = asciiToLower s.
Proof.
  induction s as [|c s IH]; simpl; [reflexivity|].
  now rewrite asciiLower_idempotent, IH.
Qed.

Lemma asciiToLower_append (s t : string) :
  asciiToLower (s ++ t) = asciiToLower s ++ asciiToLower t.
Proof. induction s as [|c s IH]; simpl; [reflexivity | now rewrite IH]. Qed.

Lemma asciiToLower_length (s : string) :
  String.length (asciiToLower s) = String.length s.
Proof. induction s as [|c s IH]; simpl; [reflexivity | now rewrite IH]. Qed.

Lemma isASCII_asciiToLower (s : string) : isASCII (asciiToLower s) = isASCII s.
Proof.
  induction s as [|c s IH]; simpl; [reflexivity|].
  now rewrite asciiLower_below_128, IH.
Qed.

Lemma isASCII_append (s t : string) : isASCII (s ++ t) = isASCII s && isASCII t.
Proof.
  induction s as [|c s IH]; simpl; [reflexivity|].
  now rewrite IH, andb_assoc.
Qed.

Lemma prefix_of_append (p q s : string) :
  String.prefix (p ++ q) s = true -> String.prefix p s = true.
Proof.
  revert s. induction p as [|c p IH]; intros s; simpl.
  - now destruct s.
  - destruct s as [|d s]; simpl; [discriminate|].
    destruct (ascii_dec c d); [apply IH | discriminate].
Qed.

Lemma prefix_same_length (p q x y : string) :
  String.length p = String.length q ->
  String.prefix (p ++ x) (q ++ y) = true -> p = q.
Proof.
  revert q. induction p as [|c p IH]; intros [|d q] Hlen; try discriminate.
  - reflexivity.
  - simpl. destruct (ascii_dec c d) as [->|]; [|discriminate].
    intros H. f_equal. apply IH; [|exact H]. simpl in Hlen. lia.
Qed.

(** The prefix of an ASCII component, and the tag of a release whose
    version string is ASCII. *)
Lemma getComponentPrefix_ascii {lower : GoLowerLaws text} (c : string) :
  isASCII c = true -> getComponentPrefix c = asciiToLower c ++ "-".
Proof. intros Hc. unfold getComponentPrefix. now rewrite ToLower_ascii. Qed.

Lemma ToLower_tag {lower : GoLowerLaws text} (c rest : string) :
  isASCII c = true -> isASCII rest = true ->
  ToLower (c ++ "-" ++ rest) = asciiToLower c ++ "-" ++ asciiToLower rest.
Proof.
  intros Hc Hrest. rewrite ToLower_ascii.
  - now rewrite !asciiToLower_append.
  - rewrite !isASCII_append, Hc, Hrest. reflexivity.
Qed.

(** X12. Round trip of a release through GitHub, for a component and a
    version string in ASCII: the release [createGitHubRelease] asks for
    is tagged with the lower-cased component, a hyphen and the
    lower-cased version string; it passes the release filter of the same
    component; and [existingVersionOrNew] reads back the lower-cased
    version string from it, so capital letters of a prerelease label
    are not read back. *)
Theorem created_release_is_read_back {lower : GoLowerLaws text}
    (a : VersioningAction) (v : Version) (notes : string) :
  isASCII (component a) = true ->
  isASCII (VersionString v) = true ->
  github.TagName (releaseFor a v notes)
    = asciiToLower (component a) ++ "-" ++ asciiToLower (VersionString v)
  /\ releaseMatches (component a) (releaseFor a v notes) = true
  /\ forall others initial,
       existingVersionOrNew (component a) (releaseFor a v notes :: others) initial
       = obind (MustParse (asciiToLower (VersionString v))) (fun w => Ok (w, false)).
Proof.
  intros Hc Hv.
  assert (Htag : github.TagName (releaseFor a v notes)
                 = (asciiToLower (component a) ++ "-")
                     ++ asciiToLower (VersionString v)).
  { cbn [releaseFor github.TagName]. unfold prefixWithComponent.
    rewrite (getComponentPrefix_ascii _ Hc), append_assoc_string.
    rewrite ToLower_tag by (now rewrite ?isASCII_asciiToLower).
    now rewrite asciiToLower_idempotent, append_assoc_string. }
  split; [now rewrite Htag, append_assoc_string|]. split.
  - unfold releaseMatches. rewrite Htag, (getComponentPrefix_ascii _ Hc).
    rewrite ToLower_ascii.
    + rewrite !asciiToLower_append, !asciiToLower_idempotent.
      unfold HasPrefix. apply prefix_append.
    + rewrite !isASCII_append, !isASCII_asciiToLower, Hc, Hv. reflexivity.
  - intros others initial. unfold existingVersionOrNew.
    rewrite Htag, (getComponentPrefix_ascii _ Hc). now rewrite TrimPrefix_append.
Qed.

(** X13. A component whose name continues the name of another one after
    a hyphen is not kept apart from it (names in ASCII): a release that
    passes the tag test of the component [c-x] passes the test of the
    component [c], so every release returned for [c-x] is one of the
    releases that the filter loop collects for [c]. The statement stops
    at the slice the loop builds: the sort that follows compares the
    publish dates of what was collected. *)
Theorem releases_of_extended_component {laws : GoTextLaws text}
    {lower : GoLowerLaws text} (c x : string) :
  isASCII c = true -> isASCII x = true ->
  (forall release,
     releaseMatches (c ++ "-" ++ x) release = true -> releaseMatches c release = true)
  /\ (forall releases release,
        In release (filterAndSortReleasesForComponent (c ++ "-" ++ x) releases) ->
        In release
           (filter (fun release =>
                      HasPrefix (ToLower (github.TagName release)) (getComponentPrefix c))
                   releases)).
Proof.
  intros Hc Hx.
  assert (Hmatch : forall release,
             releaseMatches (c ++ "-" ++ x) release = true ->
             releaseMatches c release = true).
  { intros release. unfold releaseMatches, getComponentPrefix, HasPrefix.
    rewrite (ToLower_tag c x Hc Hx), (ToLower_ascii c Hc).
    rewrite <- !append_assoc_string. rewrite (append_assoc_string _ (asciiToLower x)).
    apply prefix_of_append. }
  split; [exact Hmatch|].
  intros releases release Hin.
  apply (Permutation_in _ (filterAndSort_permutation _ releases)) in Hin.
  apply filter_In in Hin. apply filter_In.
  split; [apply Hin | now apply (Hmatch release)].
Qed.

(** X14. The release filter compares the tag in lower case, the
    stripping of the prefix does not: a release tagged with the
    component in another case (ASCII) is selected as a release of the
    component, but its tag is parsed whole, prefix included. *)
Theorem tag_in_other_case_is_not_stripped {lower : GoLowerLaws text}
    (c upper versionString : string) (release : github.RepositoryRelease) :
  isASCII c = true -> isASCII upper = true -> isASCII versionString = true ->
  asciiToLower upper = asciiToLower c -> upper <> asciiToLower c ->
  github.TagName release = upper ++ "-" ++ versionString ->
  releaseMatches c release = true
  /\ forall others initial,
       existingVersionOrNew c (release :: others) initial
       = obind (MustParse (upper ++ "-" ++ versionString)) (fun w => Ok (w, false)).
Proof.
  intros Hc Hupper Hv Hsame Hdiffer Htag. split.
  - unfold releaseMatches, HasPrefix.
    rewrite Htag, (ToLower_tag upper versionString Hupper Hv), Hsame.
    rewrite (getComponentPrefix_ascii _ Hc).
    rewrite <- append_assoc_string. apply prefix_append.
  - intros others initial. unfold existingVersionOrNew, TrimPrefix, HasPrefix.
    rewrite Htag, (getComponentPrefix_ascii _ Hc).
    destruct (String.prefix (asciiToLower c ++ "-") (upper ++ "-" ++ versionString))
      eqn:Hprefix; [|reflexivity].
    apply prefix_same_length in Hprefix.
    + now elim Hdiffer.
    + now rewrite <- Hsame, !asciiToLower_length.
Qed.

(** ** The command *)

Lemma N_of_asciiLower (c : ascii) :
  N_of_ascii (asciiLower c)
  = (if ((65 <=? N_of_ascii c) && (N_of_ascii c <=? 90))%N
     then N_of_ascii c + 32 else N_of_ascii c)%N.
Proof. destruct c as [[] [] [] [] [] [] [] []]; reflexivity. Qed.

Lemma asciiLower_eq_iff (c d : ascii) :
  asciiLower c = asciiLower d
  <-> N_of_ascii (asciiLower c) = N_of_ascii (asciiLower d).
Proof.
  split; [now intros -> |].
  intros H. rewrite <- (ascii_N_embedding (asciiLower c)), H.
  apply ascii_N_embedding.
Qed.

(** The test of one byte pair in the ASCII loop of [EqualFold]. *)
Lemma fold_byte_iff (c d : ascii) :
  (let sr := N.min (N_of_ascii c) (N_of_ascii d) in
   let tr := N.max (N_of_ascii c) (N_of_ascii d) in
   (tr =? sr) || ((65 <=? sr) && (sr <=? 90) && (tr =? sr + 32)))%N = true
  <-> asciiLower c = asciiLower d.
Proof.
  rewrite asciiLower_eq_iff, !N_of_asciiLower. cbv zeta.
  rewrite orb_true_iff, !andb_true_iff, !N.eqb_eq, !N.leb_le.
  destruct (N.leb_spec 65 (N_of_ascii c)), (N.leb_spec (N_of_ascii c) 90),
    (N.leb_spec 65 (N_of_ascii d)), (N.leb_spec (N_of_ascii d) 90);
    cbn [andb]; lia.
Qed.

Lemma asciiEqualFold_iff (s t : string) :
  asciiEqualFold s t = true <-> asciiToLower s = asciiToLower t.
Proof.
  revert t. induction s as [|c s IH]; intros [|d t]; simpl;
    try (split; [discriminate | discriminate]); [tauto|].
  pose proof (fold_byte_iff c d) as Hbyte. cbv zeta in Hbyte.
  destruct (N.max (N_of_ascii c) (N_of_ascii d)
            =? N.min (N_of_ascii c) (N_of_ascii d))%N eqn:Hsame.
  - rewrite IH. simpl in Hbyte. split.
    + intros ->. f_equal. now apply Hbyte.
    + now intros [= _ ->].
  - simpl in Hbyte.
    destruct ((65 <=? N.min (N_of_ascii c) (N_of_ascii d))
              && (N.min (N_of_ascii c) (N_of_ascii d) <=? 90)
              && (N.max (N_of_ascii c) (N_of_ascii d)
                  =? N.min (N_of_ascii c) (N_of_ascii d) + 32))%N eqn:Hcase.
    + rewrite IH. split.
      * intros ->. f_equal. now apply Hbyte.
      * now intros [= _ ->].
    + split; [discriminate|]. intros [= Hc _]. apply Hbyte in Hc. discriminate.
Qed.

(** X16. A run is a dry run exactly when the input, in ASCII, is "yes"
    or "true" up to case; every other value, the empty one and "1"
    included, makes the command publish. *)
Theorem isDryRun_only_yes_or_true {laws : GoTextLaws text} (input : string) :
  isASCII input = true ->
  isDryRun input = true
  <-> asciiToLower input = "yes" \/ asciiToLower input = "true".
Proof.
  intros Hinput. unfold isDryRun.
  rewrite !EqualFold_ascii by (exact Hinput || reflexivity).
  rewrite orb_true_iff, !asciiEqualFold_iff. reflexivity.
Qed.

Lemma SplitByte_line (sep : ascii) (line rest : string) :
  hasByte sep line = false ->
  SplitByte sep (line ++ String sep rest) = line :: SplitByte sep rest.
Proof.
  induction line as [|c line IH]; intros Hnone.
  - simpl. now rewrite Ascii.eqb_refl.
  - simpl in Hnone. apply orb_false_iff in Hnone. destruct Hnone as [Hc Hnone].
    cbn [append SplitByte]. rewrite Hc, (IH Hnone). reflexivity.
Qed.

Lemma SplitByte_last (sep : ascii) (line : string) :
  hasByte sep line = false -> SplitByte sep line = [line].
Proof.
  induction line as [|c line IH]; intros Hnone; [reflexivity|].
  simpl in Hnone. apply orb_false_iff in Hnone. destruct Hnone as [Hc Hnone].
  cbn [SplitByte]. rewrite Hc, (IH Hnone). reflexivity.
Qed.

(** X17. What the command appends to the output file: three lines when
    no version was generated; but with a version only two, because the
    version is written without a line end: the [version] output and the
    [prerelease] output that follows share one line (the version string
    holding no line end itself). *)
Theorem version_output_has_no_line_end (newVersion : Version) :
  hasByte (ascii_of_nat 10) (VersionString newVersion) = false ->
  SplitByte (ascii_of_nat 10) (outputText (Some newVersion))
  = ["new_version_created=yes";
     "version=" ++ VersionString newVersion
       ++ (if (VersionPrerelease newVersion =? "")%string
           then "prerelease=no" else "prerelease=yes");
     ""]
  /\ SplitByte (ascii_of_nat 10) (outputText None)
     = ["new_version_created=no"; "version=0.0.0-none"; "prerelease=no"; ""].
Proof.
  intros Hnone. split; [|reflexivity].
  unfold outputText, writeOutputs. cbn [joinStrings].
  rewrite append_empty_r.
  change (("new_version_created=yes" ++ nl) ++ ("version=" ++ VersionString newVersion)
            ++ (if (VersionPrerelease newVersion =? "")%string
                then "prerelease=no" ++ nl else "prerelease=yes" ++ nl))
    with ("new_version_created=yes"
            ++ String (ascii_of_nat 10)
                 (("version=" ++ VersionString newVersion)
                    ++ (if (VersionPrerelease newVersion =? "")%string
                        then "prerelease=no" ++ nl else "prerelease=yes" ++ nl))).
  rewrite SplitByte_line by reflexivity. f_equal.
  assert (Hline : forall word,
             hasByte (ascii_of_nat 10) word = false ->
             SplitByte (ascii_of_nat 10)
               (("version=" ++ VersionString newVersion) ++ word ++ nl)
             = ["version=" ++ VersionString newVersion ++ word; ""]).
  { intros word Hword.
    replace (("version=" ++ VersionString newVersion) ++ word ++ nl)
      with (("version=" ++ VersionString newVersion ++ word)
              ++ String (ascii_of_nat 10) "")
      by (now rewrite !append_assoc_string).
    rewrite SplitByte_line; [reflexivity|].
    rewrite !hasByte_append, Hnone, Hword. reflexivity. }
  destruct (VersionPrerelease newVersion =? "")%string; now apply Hline.
Qed.

Lemma NewAction_of_pieces (ownerAndRepository component label branch revision
    initialVersion defaultBranch owner repository : string) (more : list string) :
  SplitByte "/" ownerAndRepository = owner :: repository :: more ->
  NewAction ownerAndRepository component label branch revision initialVersion
    defaultBranch
  = Some {| owner := owner; repository := repository; component := component;
            label := label; branch := branch; revision := revision;
            initialVersion := initialVersion; defaultBranch := defaultBranch |}.
Proof. intros Hsplit. unfold NewAction. now rewrite Hsplit. Qed.

(** X18. [NewAction] splits its first argument at the slashes: without
    a slash it panics; with "owner/repository" it gives the two parts
    back; anything after a second slash is dropped. The other arguments
    are stored as they are. *)
Theorem NewAction_owner_and_repository (component label branch revision
    initialVersion defaultBranch : string) :
  (forall name,
     hasByte "/" name = false ->
     NewAction name component label branch revision initialVersion defaultBranch
     = None)
  /\ (forall owner repository,
        hasByte "/" owner = false -> hasByte "/" repository = false ->
        NewAction (owner ++ "/" ++ repository) component label branch revision
          initialVersion defaultBranch
        = Some {| owner := owner; repository := repository; component := component;
                  label := label; branch := branch; revision := revision;
                  initialVersion := initialVersion;
                  defaultBranch := defaultBranch |})
  /\ (forall owner repository more,
        hasByte "/" owner = false -> hasByte "/" repository = false ->
        NewAction (owner ++ "/" ++ repository ++ "/" ++ more) component label branch
          revision initialVersion defaultBranch
        = NewAction (owner ++ "/" ++ repository) component label branch revision
            initialVersion defaultBranch).
Proof.
  assert (Htwo : forall owner repository,
             hasByte "/" owner = false -> hasByte "/" repository = false ->
             SplitByte "/" (owner ++ "/" ++ repository) = [owner; repository]).
  { intros owner repository Ho Hr.
    change (owner ++ "/" ++ repository) with (owner ++ String "/" repository).
    now rewrite (SplitByte_line _ _ _ Ho), (SplitByte_last _ _ Hr). }
  split; [|split].
  - intros name Hnone. unfold NewAction. now rewrite (SplitByte_last _ _ Hnone).
  - intros owner repository Ho Hr. apply (NewAction_of_pieces _ _ _ _ _ _ _ _ _ []).
    now apply Htwo.
  - intros owner repository more Ho Hr.
    rewrite (NewAction_of_pieces _ _ _ _ _ _ _ owner repository [] (Htwo _ _ Ho Hr)).
    apply (NewAction_of_pieces _ _ _ _ _ _ _ _ _ (SplitByte "/" more)).
    change (owner ++ "/" ++ repository ++ "/" ++ more)
      with (owner ++ String "/" (repository ++ String "/" more)).
    now rewrite (SplitByte_line _ _ _ Ho), (SplitByte_line _ _ _ Hr).
Qed.

Lemma substring_nonempty (s : string) (n : nat) :
  (1 <= n)%nat -> (n <= String.length s)%nat -> substring 0 n s <> "".
Proof.
  destruct s as [|c s]; simpl; [lia|].
  destruct n as [|n]; [lia|]. simpl. discriminate.
Qed.

(** X19. The command reports a prerelease from the label of the
    version, the release is marked prerelease from the branch. Off the
    default branch the two agree: every version [newVersion] returns
    carries the 7 bytes of the revision, so the output says
    "prerelease=yes" and the release is marked. On the default branch
    they can differ: a first creation from an initial version that has a
    label says "prerelease=yes" for a release that is not marked. *)
Theorem prerelease_output_and_release_flag {laws : SemverLaws sv}
    (a : VersioningAction) (v : Version) (cs : list ConventionalCommit) :
  (forall first v' notes,
     branch a <> defaultBranch a ->
     newVersion a v cs first = Ok (Some v') ->
     writeOutputs (Some v')
     = ["new_version_created=yes" ++ nl; "version=" ++ VersionString v';
        "prerelease=yes" ++ nl]
     /\ github.Prerelease (releaseFor a v' notes) = true)
  /\ (forall notes,
        branch a = defaultBranch a -> VersionPrerelease v <> "" ->
        newVersion a v cs true = Ok (Some v)
        /\ writeOutputs (Some v)
           = ["new_version_created=yes" ++ nl; "version=" ++ VersionString v;
              "prerelease=yes" ++ nl]
        /\ github.Prerelease (releaseFor a v notes) = false).
Proof.
  split.
  - intros first v' notes Hne Hrun.
    rewrite newVersion_baseVersion in Hrun.
    destruct (baseVersion v cs first) as [b|]; [|discriminate].
    unfold markPrerelease in Hrun.
    apply String.eqb_neq in Hne. rewrite Hne in Hrun. simpl in Hrun.
    destruct (sliceTo (revision a) 7) as [short|] eqn:Hslice; [|discriminate].
    apply sliceTo_Some in Hslice. destruct Hslice as [Hlen ->]. simpl in Hrun.
    destruct (SetPrerelease b (substring 0 7 (revision a))) as [w|] eqn:Hset;
      simpl in Hrun; [|discriminate].
    injection Hrun as <-. apply SetPrerelease_label in Hset.
    split.
    + unfold writeOutputs. rewrite Hset.
      pose proof (substring_nonempty (revision a) 7 ltac:(lia) Hlen) as Hlabel.
      apply String.eqb_neq in Hlabel. now rewrite Hlabel.
    + cbn [releaseFor github.Prerelease]. now rewrite Hne.
  - intros notes Heq Hlabel. apply String.eqb_eq in Heq. split; [|split].
    + unfold newVersion. now rewrite Heq.
    + unfold writeOutputs. apply String.eqb_neq in Hlabel. now rewrite Hlabel.
    + cbn [releaseFor github.Prerelease]. now rewrite Heq.
Qed.

End Coverage.

(** * The further properties on concrete runs *)

Lemma RefText_lower_laws : GoLowerLaws RefText.text.
Proof. constructor. reflexivity. Qed.

Section MoreRuns.
#[local] Existing Instance RefText.text.
#[local] Existing Instance RefSemver.semver.
#[local] Existing Instance RefCommits.commits.

(** The third page of [MoreSamples.gappedClient] comes after an empty
    page: it is neither asked for nor returned. *)
Example getAllReleases_stops_at_empty_page :
  getAllReleases MoreSamples.gappedClient
  = ([ListReleasesCall 1; ListReleasesCall 2],
     Ok [Sample.release "foo-1.2.3" "1111111aaaaaaa" 1699999000000000000%Z]).
Proof. reflexivity. Qed.

Lemma newVersion_order_irrelevant_witness :
  Permutation [Sample.fixR; Sample.breakingR; Sample.featR]
              [Sample.featR; Sample.fixR; Sample.breakingR]
  /\ newVersion Sample.main Sample.v123
       [Sample.fixR; Sample.breakingR; Sample.featR] false
     = newVersion Sample.main Sample.v123
         [Sample.featR; Sample.fixR; Sample.breakingR] false.
Proof.
  assert (Hperm : Permutation [Sample.fixR; Sample.breakingR; Sample.featR]
                              [Sample.featR; Sample.fixR; Sample.breakingR])
    by apply Permutation_sym, (Permutation_cons_append
                                 [Sample.fixR; Sample.breakingR] Sample.featR).
  split; [exact Hperm|].
  exact (newVersion_order_irrelevant (sv := RefSemver.semver) (cc := RefCommits.commits)
           Sample.main Sample.v123 _ _ false Hperm).
Defined.

Lemma changelog_sections_list_their_commits_witness :
  collectNotes Sample.main MoreSamples.changelogCommits initialNotes
    = Ok MoreSamples.changelogState
  /\ breakingChangesStr MoreSamples.changelogState
     = breakingChangesInitial
       ++ joinStrings (entryTexts (bucket IsBreakingChange Sample.main
                                     MoreSamples.changelogCommits))
  /\ fixesStr MoreSamples.changelogState
     = fixesInitial
       ++ joinStrings (entryTexts (bucket IsFix Sample.main
                                     MoreSamples.changelogCommits)).
Proof.
  assert (Hrun : collectNotes Sample.main MoreSamples.changelogCommits initialNotes
                 = Ok MoreSamples.changelogState) by (vm_compute; reflexivity).
  split; [exact Hrun|].
  destruct (changelog_sections_list_their_commits (text := RefText.text)
              (cc := RefCommits.commits) _ _ _ Hrun) as (Hbreaking & _ & Hfix & _).
  split; [exact Hbreaking | exact Hfix].
Defined.

Lemma contributors_once_each_witness :
  collectNotes Sample.main MoreSamples.changelogCommits initialNotes
    = Ok MoreSamples.changelogState
  /\ authorsOf Sample.main MoreSamples.changelogCommits = ["bob"; "alice"; "carol"; "bob"]
  /\ contributorsStr MoreSamples.changelogState
     = contributorsInitial ++ "* @bob" ++ nl ++ "* @alice" ++ nl ++ "* @carol" ++ nl
  /\ (exists earlier later,
        authorsOf Sample.main MoreSamples.changelogCommits
        = (earlier ++ "alice" :: later)%list
        /\ ~ In "alice" earlier /\ ~ In "carol" earlier)
  /\ (In "carol" (contributors MoreSamples.changelogState)
      <-> In "carol" ["bob"; "alice"; "carol"]).
Proof.
  assert (Hrun : collectNotes Sample.main MoreSamples.changelogCommits initialNotes
                 = Ok MoreSamples.changelogState) by (vm_compute; reflexivity).
  split; [exact Hrun|]. split; [reflexivity|].
  destruct (contributors_once_each (text := RefText.text) (cc := RefCommits.commits)
              _ _ _ Hrun) as (Hlines & _ & _ & Horder & Hset).
  split; [exact Hlines|]. split; [|exact (Hset "carol")].
  apply (Horder ["bob"] "alice" [] "carol" []). reflexivity.
Defined.

Lemma generateReleaseNotes_panics_on_short_sha_witness :
  (exists notes, generateReleaseNotes Sample.main Sample.fixCommits = Ok notes)
  /\ generateReleaseNotes Sample.main MoreSamples.shortShaCommits
     = Panic SliceOutOfRange.
Proof.
  split.
  - apply (proj1 (generateReleaseNotes_panics_on_short_sha (text := RefText.text)
                    (cc := RefCommits.commits) Sample.main Sample.fixCommits)).
    intros commit r [<-|[<-|[]]] _ _ _; reflexivity.
  - apply (proj2 (generateReleaseNotes_panics_on_short_sha (text := RefText.text)
                    (cc := RefCommits.commits) Sample.main MoreSamples.shortShaCommits)).
    exists (MoreSamples.commitBy "0123" "fix(foo): mend" "bob"),
      {| RefCommits.type := "fix"; RefCommits.scope := Some "foo";
         RefCommits.description := "mend"; RefCommits.exclamation := false |}.
    split; [simpl; tauto|]. repeat split.
Defined.

Lemma release_notes_layout_witness :
  collectNotes Sample.main MoreSamples.changelogCommits initialNotes
    = Ok MoreSamples.changelogState
  /\ generateReleaseNotes Sample.main MoreSamples.changelogCommits
     = Ok (nl ++ notesCaption ++ nl
           ++ renderSection breakingChangesInitial
                (entryTexts (bucket IsBreakingChange Sample.main
                               MoreSamples.changelogCommits)) ++ nl
           ++ renderSection featuresInitial
                (entryTexts (bucket IsFeat Sample.main MoreSamples.changelogCommits))
           ++ nl
           ++ renderSection fixesInitial
                (entryTexts (bucket IsFix Sample.main MoreSamples.changelogCommits))
           ++ nl
           ++ renderSection contributorsInitial
                (map contributorLine (rev (contributors MoreSamples.changelogState)))
           ++ nl).
Proof.
  assert (Hrun : collectNotes Sample.main MoreSamples.changelogCommits initialNotes
                 = Ok MoreSamples.changelogState) by (vm_compute; reflexivity).
  split; [exact Hrun|].
  apply (release_notes_layout (text := RefText.text) (cc := RefCommits.commits)
           _ _ _ Hrun); vm_compute; reflexivity.
Defined.

(** A description that holds a placeholder is not covered by the layout:
    the contributors are put inside the entry, and the placeholder of
    the template stays in the notes. *)
Example placeholder_in_a_description :
  generateReleaseNotes Sample.main
    [MoreSamples.commitBy "c0ffee0123456789" "fix(foo): see {contributors}" "bob"]
  = Ok (nl ++ notesCaption ++ nl ++ nl ++ nl
        ++ fixesInitial
        ++ "* [`c0ffee0`](https://example.test/c/c0ffee0123456789) see "
        ++ contributorsInitial ++ "* @bob" ++ nl ++ " (@bob)" ++ nl
        ++ nl ++ "{contributors}" ++ nl).
Proof. vm_compute. reflexivity. Qed.

Lemma bump_iff_change_section_witness :
  collectNotes Sample.main MoreSamples.changelogCommits initialNotes
    = Ok MoreSamples.changelogState
  /\ (exists b,
        baseVersion Sample.v123
          (convertAndFilterCommitsForComponent (component Sample.main)
             MoreSamples.changelogCommits) false = Some b)
  /\ ((String.length (breakingChangesStr MoreSamples.changelogState)
       =? String.length breakingChangesInitial)%nat = false
      \/ (String.length (featuresStr MoreSamples.changelogState)
          =? String.length featuresInitial)%nat = false
      \/ (String.length (fixesStr MoreSamples.changelogState)
          =? String.length fixesInitial)%nat = false).
Proof.
  assert (Hrun : collectNotes Sample.main MoreSamples.changelogCommits initialNotes
                 = Ok MoreSamples.changelogState) by (vm_compute; reflexivity).
  assert (Hbump : exists b,
             baseVersion Sample.v123
               (convertAndFilterCommitsForComponent (component Sample.main)
                  MoreSamples.changelogCommits) false = Some b)
    by (eexists; vm_compute; reflexivity).
  split; [exact Hrun|]. split; [exact Hbump|].
  exact (proj1 (bump_iff_change_section (text := RefText.text) (sv := RefSemver.semver)
                  (cc := RefCommits.commits) Sample.main Sample.v123 _ _ Hrun) Hbump).
Defined.

Lemma published_release_witness :
  In (CreateReleaseCall (releaseFor Sample.main (Sample.version 1 2 4 "1.2.4")
                           MoreSamples.fixNotes))
     (fst (GenerateVersion (Sample.client Sample.fooReleases Sample.fixCommits)
             Sample.main false))
  /\ (exists fetched,
        fst (GenerateVersion (Sample.client Sample.fooReleases Sample.fixCommits)
               Sample.main false)
        = (fetched ++ [CreateReleaseCall
                         (releaseFor Sample.main (Sample.version 1 2 4 "1.2.4")
                            MoreSamples.fixNotes)])%list
        /\ noReleaseRequested fetched)
  /\ exists fetched notes,
       fst (GenerateVersion (Sample.client Sample.fooReleases Sample.fixCommits)
              Sample.main false)
       = (fetched ++ [CreateReleaseCall
                        (releaseFor Sample.main (Sample.version 1 2 4 "1.2.4") notes)])%list
       /\ github.TagName (releaseFor Sample.main (Sample.version 1 2 4 "1.2.4") notes)
          = "foo-1.2.4"
       /\ github.TargetCommitish
            (releaseFor Sample.main (Sample.version 1 2 4 "1.2.4") notes)
          = "abcdef1234"
       /\ github.Prerelease (releaseFor Sample.main (Sample.version 1 2 4 "1.2.4") notes)
          = false.
Proof.
  destruct (published_release (text := RefText.text) (sv := RefSemver.semver)
              (cc := RefCommits.commits)
              (Sample.client Sample.fooReleases Sample.fixCommits) Sample.main)
    as [Hone Hpublished].
  assert (Hin : In (CreateReleaseCall
                      (releaseFor Sample.main (Sample.version 1 2 4 "1.2.4")
                         MoreSamples.fixNotes))
                   (fst (GenerateVersion
                           (Sample.client Sample.fooReleases Sample.fixCommits)
                           Sample.main false))).
  { vm_compute. tauto. }
  split; [exact Hin|]. split; [exact (proj2 (Hone false _ Hin))|].
  destruct (Hpublished
              (fst (GenerateVersion (Sample.client Sample.fooReleases Sample.fixCommits)
                      Sample.main false))
              (Sample.version 1 2 4 "1.2.4"))
    as (fetched & v0 & first & commits & notes & _ & _ & Htrace & _ & _
        & Htag & Htarget & Hflag & _).
  { vm_compute. reflexivity. }
  exists fetched, notes. split; [exact Htrace|].
  split; [exact Htag|]. split; [exact Htarget | exact Hflag].
Defined.

Lemma created_release_is_read_back_witness :
  github.TagName (releaseFor Sample.feature MoreSamples.shoutedVersion "")
    = "foo-1.2.4-abcdef1"
  /\ releaseMatches (component Sample.feature)
       (releaseFor Sample.feature MoreSamples.shoutedVersion "") = true
  /\ existingVersionOrNew (component Sample.feature)
       [releaseFor Sample.feature MoreSamples.shoutedVersion ""] "1.0.0"
     = Ok (Sample.v124pre, false).
Proof.
  destruct (created_release_is_read_back (sv := RefSemver.semver)
              (lower := RefText_lower_laws) Sample.feature MoreSamples.shoutedVersion ""
              eq_refl eq_refl) as (Htag & Hmatch & Hread).
  split; [exact Htag|]. split; [exact Hmatch|].
  rewrite (Hread [] "1.0.0"). reflexivity.
Defined.

Lemma releases_of_extended_component_witness :
  releaseMatches "foo-bar"
    (Sample.release "foo-bar-1.0.0" "1111111aaaaaaa" 1699999000000000000%Z) = true
  /\ releaseMatches "foo"
       (Sample.release "foo-bar-1.0.0" "1111111aaaaaaa" 1699999000000000000%Z) = true
  /\ In (Sample.release "foo-bar-1.0.0" "1111111aaaaaaa" 1699999000000000000%Z)
        (filter (fun release =>
                   HasPrefix (ToLower (github.TagName release)) (getComponentPrefix "foo"))
           [Sample.release "foo-2.0.0" "2222222bbbbbbb" 1700000000000000000%Z;
            Sample.release "foo-bar-1.0.0" "1111111aaaaaaa" 1699999000000000000%Z;
            Sample.release "bar-3.0.0" "3333333ccccccc" 1700000500000000000%Z]).
Proof.
  destruct (releases_of_extended_component (laws := RefText_laws)
              (lower := RefText_lower_laws) "foo" "bar" eq_refl eq_refl)
    as [Hmatch Hselected].
  split; [reflexivity|]. split.
  - apply Hmatch. reflexivity.
  - apply Hselected. vm_compute. tauto.
Defined.

Lemma tag_in_other_case_is_not_stripped_witness :
  releaseMatches "foo"
    (Sample.release "Foo-1.2.3" "1111111aaaaaaa" 1699999000000000000%Z) = true
  /\ existingVersionOrNew "foo"
       [Sample.release "Foo-1.2.3" "1111111aaaaaaa" 1699999000000000000%Z] "1.0.0"
     = Panic ErrInvalidSemVer.
Proof.
  destruct (tag_in_other_case_is_not_stripped (sv := RefSemver.semver)
              (lower := RefText_lower_laws) "foo" "Foo" "1.2.3"
              (Sample.release "Foo-1.2.3" "1111111aaaaaaa" 1699999000000000000%Z)
              eq_refl eq_refl eq_refl eq_refl
              (fun H => ltac:(discriminate H)) eq_refl) as [Hmatch Hread].
  split; [exact Hmatch|]. rewrite (Hread [] "1.0.0"). reflexivity.
Defined.

Lemma calls_in_stage_order_witness :
  fst (GenerateVersion (Sample.client Sample.fooReleases Sample.fixCommits)
         Sample.main true)
    = ([ListReleasesCall 1] ++ ListReleasesCall 2
         :: [GetCommitCall "1111111aaaaaaa"; GetCommitCall "abcdef1234"]
         ++ ListCommitsCall "main" 1700000001000000000%Z 1700000600001000000%Z 1
         :: [ListCommitsCall "main" 1700000001000000000%Z 1700000600001000000%Z 2])%list
  /\ (phase (ListReleasesCall 2)
      <= phase (ListCommitsCall "main" 1700000001000000000%Z 1700000600001000000%Z 1))%nat.
Proof.
  assert (Htrace : fst (GenerateVersion
                          (Sample.client Sample.fooReleases Sample.fixCommits)
                          Sample.main true)
                   = ([ListReleasesCall 1] ++ ListReleasesCall 2
                        :: [GetCommitCall "1111111aaaaaaa"; GetCommitCall "abcdef1234"]
                        ++ ListCommitsCall "main" 1700000001000000000%Z
                             1700000600001000000%Z 1
                        :: [ListCommitsCall "main" 1700000001000000000%Z
                              1700000600001000000%Z 2])%list)
    by (vm_compute; reflexivity).
  split; [exact Htrace|].
  exact (proj2 (calls_in_stage_order (text := RefText.text) (sv := RefSemver.semver)
                  (cc := RefCommits.commits)
                  (Sample.client Sample.fooReleases Sample.fixCommits) Sample.main true)
           _ _ _ _ _ Htrace).
Defined.

Lemma isDryRun_only_yes_or_true_witness :
  isDryRun "YES" = true /\ isDryRun "True" = true
  /\ isDryRun "1" = false /\ isDryRun "" = false.
Proof.
  split; [|split; [|split]].
  - apply (isDryRun_only_yes_or_true (laws := RefText_laws) "YES" eq_refl).
    left. reflexivity.
  - apply (isDryRun_only_yes_or_true (laws := RefText_laws) "True" eq_refl).
    right. reflexivity.
  - destruct (isDryRun "1") eqn:Hdry; [|reflexivity].
    apply (isDryRun_only_yes_or_true (laws := RefText_laws) "1" eq_refl) in Hdry.
    destruct Hdry as [H|H]; discriminate H.
  - destruct (isDryRun "") eqn:Hdry; [|reflexivity].
    apply (isDryRun_only_yes_or_true (laws := RefText_laws) "" eq_refl) in Hdry.
    destruct Hdry as [H|H]; discriminate H.
Defined.

Lemma version_output_has_no_line_end_witness :
  SplitByte (ascii_of_nat 10) (outputText (Some (Sample.version 1 2 4 "1.2.4")))
    = ["new_version_created=yes"; "version=1.2.4prerelease=no"; ""]
  /\ SplitByte (ascii_of_nat 10) (outputText (Some Sample.v124pre))
     = ["new_version_created=yes"; "version=1.2.4-abcdef1prerelease=yes"; ""].
Proof.
  split.
  - exact (proj1 (version_output_has_no_line_end (sv := RefSemver.semver)
                    (Sample.version 1 2 4 "1.2.4") eq_refl)).
  - exact (proj1 (version_output_has_no_line_end (sv := RefSemver.semver)
                    Sample.v124pre eq_refl)).
Defined.

Lemma NewAction_owner_and_repository_witness :
  NewAction "acme" "foo" "" "main" "abcdef1234" "1.0.0" "main" = None
  /\ NewAction "acme/mono" "foo" "" "main" "abcdef1234" "1.0.0" "main"
     = Some Sample.main
  /\ NewAction "acme/mono/extra" "foo" "" "main" "abcdef1234" "1.0.0" "main"
     = NewAction "acme/mono" "foo" "" "main" "abcdef1234" "1.0.0" "main".
Proof.
  destruct (NewAction_owner_and_repository "foo" "" "main" "abcdef1234" "1.0.0" "main")
    as (Hnone & Htwo & Hmore).
  split; [|split].
  - apply Hnone. reflexivity.
  - apply (Htwo "acme" "mono"); reflexivity.
  - apply (Hmore "acme" "mono" "extra"); reflexivity.
Defined.

Lemma prerelease_output_and_release_flag_witness :
  writeOutputs (Some Sample.v124pre)
    = ["new_version_created=yes" ++ nl; "version=" ++ VersionString Sample.v124pre;
       "prerelease=yes" ++ nl]
  /\ github.Prerelease (releaseFor Sample.feature Sample.v124pre "") = true
  /\ newVersion Sample.main MoreSamples.candidate [] true
     = Ok (Some MoreSamples.candidate)
  /\ writeOutputs (Some MoreSamples.candidate)
     = ["new_version_created=yes" ++ nl;
        "version=" ++ VersionString MoreSamples.candidate; "prerelease=yes" ++ nl]
  /\ github.Prerelease (releaseFor Sample.main MoreSamples.candidate "") = false.
Proof.
  destruct (prerelease_output_and_release_flag (text := RefText.text)
              (cc := RefCommits.commits) (laws := RefSemver_laws)
              Sample.feature Sample.v123 [Sample.fixR]) as [Hoff _].
  destruct (Hoff false Sample.v124pre "") as [Hout Hflag].
  { intros H. discriminate H. }
  { reflexivity. }
  destruct (prerelease_output_and_release_flag (text := RefText.text)
              (cc := RefCommits.commits) (laws := RefSemver_laws)
              Sample.main MoreSamples.candidate []) as [_ Hon].
  destruct (Hon "") as (Hrun & Hout' & Hflag').
  { reflexivity. }
  { intros H. discriminate H. }
  repeat split; assumption.
Defined.

End MoreRuns.
